(** * IncludeCPP solar-system module: velocity-Verlet N-body integrator

    A shallow embedding of [src/minstall/solar_system/solar_system.cpp].

    Modelling conventions.
    - A C++ [double] is a primitive binary64 float ([PrimFloat.float]):
      IEEE-754 arithmetic, round to nearest even, one operation per C++
      operator (no fused multiply-add, no extended precision).  All NaNs
      are one value.
    - A [std::vector] is a [list]; [v[i]] is stdpp's lookup and an in-place
      write of [v[i]] is stdpp's insert.  An index is a [nat].
    - An [int] is a [Z]; signed overflow, undefined in C++, is written out
      as the two's-complement wrap-around of the usual targets, and the
      theorems about the step counter assume it does not happen.
    - A member function that writes members maps the old state to the new
      one; a member function that only reads is a function of the state. *)

From Stdlib Require Import ZArith Lia ZifyNat List Floats Strings.String.
From stdpp Require Import base tactics option list list_numbers.
Set Warnings "-inexact-float".
Import ListNotations.

Local Open Scope Z_scope.

(** ** Doubles *)

Module Dbl.

Definition zero : float := 0%float.
Definition half : float := 0.5%float.

(** [std::isfinite]. *)
Definition is_finite (d : float) : bool := PrimFloat.is_finite d.

End Dbl.

(** ** Physical constants (CODATA 2018) *)

Definition GRAV : float := 6.67430e-11%float.
Definition AU : float := 1.495978707e11%float.
Definition DAY : float := 86400.0%float.
Definition YEAR : float := (365.25 * DAY)%float.

(** ** [struct CelestialBody] *)

Module CelestialBody.

Record t : Type := mk {
  name : string;
  id : Z;
  parent_id : Z;
  mass : float;
  radius : float;
  obliquity : float;
  rotation_period : float;
  x : float;  y : float;  z : float;
  vx : float; vy : float; vz : float;
  ax : float; ay : float; az : float;
  ax_old : float; ay_old : float; az_old : float;
  semi_major_axis : float;
  eccentricity : float;
  inclination : float;
  orbital_period : float;
  trajectory_x : list float;
  trajectory_y : list float;
  trajectory_z : list float;
  trajectory_max_points : Z
}.

(** The default constructor. *)
Definition default : t :=
  mk EmptyString 0 (-1) Dbl.zero Dbl.zero Dbl.zero Dbl.zero
     Dbl.zero Dbl.zero Dbl.zero Dbl.zero Dbl.zero Dbl.zero
     Dbl.zero Dbl.zero Dbl.zero Dbl.zero Dbl.zero Dbl.zero
     Dbl.zero Dbl.zero Dbl.zero Dbl.zero [] [] [] 1000.

(** Assignment to one member. *)
Definition set_mass (v : float) (b : t) : t :=
  mk (name b) (id b) (parent_id b) v (radius b) (obliquity b)
     (rotation_period b) (x b) (y b) (z b) (vx b) (vy b) (vz b)
     (ax b) (ay b) (az b) (ax_old b) (ay_old b) (az_old b)
     (semi_major_axis b) (eccentricity b) (inclination b) (orbital_period b)
     (trajectory_x b) (trajectory_y b) (trajectory_z b)
     (trajectory_max_points b).
Definition set_x (v : float) (b : t) : t :=
  mk (name b) (id b) (parent_id b) (mass b) (radius b) (obliquity b)
     (rotation_period b) v (y b) (z b) (vx b) (vy b) (vz b)
     (ax b) (ay b) (az b) (ax_old b) (ay_old b) (az_old b)
     (semi_major_axis b) (eccentricity b) (inclination b) (orbital_period b)
     (trajectory_x b) (trajectory_y b) (trajectory_z b)
     (trajectory_max_points b).
Definition set_y (v : float) (b : t) : t :=
  mk (name b) (id b) (parent_id b) (mass b) (radius b) (obliquity b)
     (rotation_period b) (x b) v (z b) (vx b) (vy b) (vz b)
     (ax b) (ay b) (az b) (ax_old b) (ay_old b) (az_old b)
     (semi_major_axis b) (eccentricity b) (inclination b) (orbital_period b)
     (trajectory_x b) (trajectory_y b) (trajectory_z b)
     (trajectory_max_points b).
Definition set_z (v : float) (b : t) : t :=
  mk (name b) (id b) (parent_id b) (mass b) (radius b) (obliquity b)
     (rotation_period b) (x b) (y b) v (vx b) (vy b) (vz b)
     (ax b) (ay b) (az b) (ax_old b) (ay_old b) (az_old b)
     (semi_major_axis b) (eccentricity b) (inclination b) (orbital_period b)
     (trajectory_x b) (trajectory_y b) (trajectory_z b)
     (trajectory_max_points b).
Definition set_vx (v : float) (b : t) : t :=
  mk (name b) (id b) (parent_id b) (mass b) (radius b) (obliquity b)
     (rotation_period b) (x b) (y b) (z b) v (vy b) (vz b)
     (ax b) (ay b) (az b) (ax_old b) (ay_old b) (az_old b)
     (semi_major_axis b) (eccentricity b) (inclination b) (orbital_period b)
     (trajectory_x b) (trajectory_y b) (trajectory_z b)
     (trajectory_max_points b).
Definition set_vy (v : float) (b : t) : t :=
  mk (name b) (id b) (parent_id b) (mass b) (radius b) (obliquity b)
     (rotation_period b) (x b) (y b) (z b) (vx b) v (vz b)
     (ax b) (ay b) (az b) (ax_old b) (ay_old b) (az_old b)
     (semi_major_axis b) (eccentricity b) (inclination b) (orbital_period b)
     (trajectory_x b) (trajectory_y b) (trajectory_z b)
     (trajectory_max_points b).
Definition set_vz (v : float) (b : t) : t :=
  mk (name b) (id b) (parent_id b) (mass b) (radius b) (obliquity b)
     (rotation_period b) (x b) (y b) (z b) (vx b) (vy b) v
     (ax b) (ay b) (az b) (ax_old b) (ay_old b) (az_old b)
     (semi_major_axis b) (eccentricity b) (inclination b) (orbital_period b)
     (trajectory_x b) (trajectory_y b) (trajectory_z b)
     (trajectory_max_points b).
Definition set_ax (v : float) (b : t) : t :=
  mk (name b) (id b) (parent_id b) (mass b) (radius b) (obliquity b)
     (rotation_period b) (x b) (y b) (z b) (vx b) (vy b) (vz b)
     v (ay b) (az b) (ax_old b) (ay_old b) (az_old b)
     (semi_major_axis b) (eccentricity b) (inclination b) (orbital_period b)
     (trajectory_x b) (trajectory_y b) (trajectory_z b)
     (trajectory_max_points b).
Definition set_ay (v : float) (b : t) : t :=
  mk (name b) (id b) (parent_id b) (mass b) (radius b) (obliquity b)
     (rotation_period b) (x b) (y b) (z b) (vx b) (vy b) (vz b)
     (ax b) v (az b) (ax_old b) (ay_old b) (az_old b)
     (semi_major_axis b) (eccentricity b) (inclination b) (orbital_period b)
     (trajectory_x b) (trajectory_y b) (trajectory_z b)
     (trajectory_max_points b).
Definition set_az (v : float) (b : t) : t :=
  mk (name b) (id b) (parent_id b) (mass b) (radius b) (obliquity b)
     (rotation_period b) (x b) (y b) (z b) (vx b) (vy b) (vz b)
     (ax b) (ay b) v (ax_old b) (ay_old b) (az_old b)
     (semi_major_axis b) (eccentricity b) (inclination b) (orbital_period b)
     (trajectory_x b) (trajectory_y b) (trajectory_z b)
     (trajectory_max_points b).
Definition set_ax_old (v : float) (b : t) : t :=
  mk (name b) (id b) (parent_id b) (mass b) (radius b) (obliquity b)
     (rotation_period b) (x b) (y b) (z b) (vx b) (vy b) (vz b)
     (ax b) (ay b) (az b) v (ay_old b) (az_old b)
     (semi_major_axis b) (eccentricity b) (inclination b) (orbital_period b)
     (trajectory_x b) (trajectory_y b) (trajectory_z b)
     (trajectory_max_points b).
Definition set_ay_old (v : float) (b : t) : t :=
  mk (name b) (id b) (parent_id b) (mass b) (radius b) (obliquity b)
     (rotation_period b) (x b) (y b) (z b) (vx b) (vy b) (vz b)
     (ax b) (ay b) (az b) (ax_old b) v (az_old b)
     (semi_major_axis b) (eccentricity b) (inclination b) (orbital_period b)
     (trajectory_x b) (trajectory_y b) (trajectory_z b)
     (trajectory_max_points b).
Definition set_az_old (v : float) (b : t) : t :=
  mk (name b) (id b) (parent_id b) (mass b) (radius b) (obliquity b)
     (rotation_period b) (x b) (y b) (z b) (vx b) (vy b) (vz b)
     (ax b) (ay b) (az b) (ax_old b) (ay_old b) v
     (semi_major_axis b) (eccentricity b) (inclination b) (orbital_period b)
     (trajectory_x b) (trajectory_y b) (trajectory_z b)
     (trajectory_max_points b).
Definition set_trajectory_x (v : list float) (b : t) : t :=
  mk (name b) (id b) (parent_id b) (mass b) (radius b) (obliquity b)
     (rotation_period b) (x b) (y b) (z b) (vx b) (vy b) (vz b)
     (ax b) (ay b) (az b) (ax_old b) (ay_old b) (az_old b)
     (semi_major_axis b) (eccentricity b) (inclination b) (orbital_period b)
     v (trajectory_y b) (trajectory_z b)
     (trajectory_max_points b).
Definition set_trajectory_y (v : list float) (b : t) : t :=
  mk (name b) (id b) (parent_id b) (mass b) (radius b) (obliquity b)
     (rotation_period b) (x b) (y b) (z b) (vx b) (vy b) (vz b)
     (ax b) (ay b) (az b) (ax_old b) (ay_old b) (az_old b)
     (semi_major_axis b) (eccentricity b) (inclination b) (orbital_period b)
     (trajectory_x b) v (trajectory_z b)
     (trajectory_max_points b).
Definition set_trajectory_z (v : list float) (b : t) : t :=
  mk (name b) (id b) (parent_id b) (mass b) (radius b) (obliquity b)
     (rotation_period b) (x b) (y b) (z b) (vx b) (vy b) (vz b)
     (ax b) (ay b) (az b) (ax_old b) (ay_old b) (az_old b)
     (semi_major_axis b) (eccentricity b) (inclination b) (orbital_period b)
     (trajectory_x b) (trajectory_y b) v
     (trajectory_max_points b).

(** [static_cast<size_t>(int)] on a 64-bit target. *)
Definition to_size_t (n : Z) : Z := n mod 2 ^ 64.

(** [vector::erase(begin())] on a non-empty vector. *)
Definition erase_begin (v : list float) : list float := drop 1 v.

(** [add_trajectory_point]: push the current position, then erase the
    front of each of the three vectors when the x vector has grown past
    [trajectory_max_points]. *)
Definition add_trajectory_point (b : t) : t :=
  let b1 := set_trajectory_x (trajectory_x b ++ [x b]) b in
  let b2 := set_trajectory_y (trajectory_y b1 ++ [y b1]) b1 in
  let b3 := set_trajectory_z (trajectory_z b2 ++ [z b2]) b2 in
  if to_size_t (trajectory_max_points b3) <? Z.of_nat (length (trajectory_x b3))
  then
    let b4 := set_trajectory_x (erase_begin (trajectory_x b3)) b3 in
    let b5 := set_trajectory_y (erase_begin (trajectory_y b4)) b4 in
    set_trajectory_z (erase_begin (trajectory_z b5)) b5
  else b3.

End CelestialBody.

Abbreviation body := CelestialBody.t.

(** ** [class SolarSystem] *)

Record SolarSystem : Type := mkSolarSystem {
  bodies : list body;
  simulation_time : float;
  total_energy : float;
  initial_energy : float;
  step_count : Z
}.

(** The constructor: no bodies, every scalar zero. *)
Definition SolarSystem_new : SolarSystem :=
  mkSolarSystem [] Dbl.zero Dbl.zero Dbl.zero 0.

Definition set_bodies (bs : list body) (s : SolarSystem) : SolarSystem :=
  mkSolarSystem bs (simulation_time s) (total_energy s) (initial_energy s)
                (step_count s).
Definition set_simulation_time (v : float) (s : SolarSystem) : SolarSystem :=
  mkSolarSystem (bodies s) v (total_energy s) (initial_energy s) (step_count s).
Definition set_total_energy (v : float) (s : SolarSystem) : SolarSystem :=
  mkSolarSystem (bodies s) (simulation_time s) v (initial_energy s)
                (step_count s).
Definition set_initial_energy (v : float) (s : SolarSystem) : SolarSystem :=
  mkSolarSystem (bodies s) (simulation_time s) (total_energy s) v
                (step_count s).
Definition set_step_count (v : Z) (s : SolarSystem) : SolarSystem :=
  mkSolarSystem (bodies s) (simulation_time s) (total_energy s)
                (initial_energy s) v.

(** *** 32-bit [int] *)

Definition INT_MIN : Z := - 2 ^ 31.
Definition INT_MAX : Z := 2 ^ 31 - 1.

(** Two's-complement wrap-around into the range of [int]. *)
Definition wrap_int (n : Z) : Z := (n + 2 ^ 31) mod 2 ^ 32 - 2 ^ 31.

(** *** The force evaluator *)

Section ForceEvaluator.

Import CelestialBody.
Local Open Scope float_scope.

(** One iteration of the loop of [compute_acceleration(i)], for the loop
    index [j], over the [bodies] vector: [continue] when [j == i],
    otherwise add the pull of body [j] to the acceleration of body [i],
    in place.  No lookup fails for [i] and [j] below [bodies.size()]. *)
Definition compute_acceleration_body (i j : nat) (bs : list body) : list body :=
  if decide (j = i) then bs
  else
    match bs !! i, bs !! j with
    | Some bi, Some bj =>
        let dx := x bj - x bi in
        let dy := y bj - y bi in
        let dz := z bj - z bi in
        let r_sq := dx * dx + dy * dy + dz * dz in
        let r := sqrt r_sq in
        let r_cubed := r_sq * r in
        let factor := GRAV * mass bj / r_cubed in
        let bi1 := set_ax (ax bi + factor * dx) bi in
        let bi2 := set_ay (ay bi1 + factor * dy) bi1 in
        let bi3 := set_az (az bi2 + factor * dz) bi2 in
        <[i := bi3]> bs
    | _, _ => bs
    end.

(** [compute_acceleration(i)]: clear the acceleration of body [i], then
    run the loop for [j = 0 .. bodies.size() - 1]. *)
Definition compute_acceleration (i : nat) (bs : list body) : list body :=
  let bs0 := alter (fun b => set_az Dbl.zero (set_ay Dbl.zero (set_ax Dbl.zero b))) i bs in
  foldl (fun acc j => compute_acceleration_body i j acc) bs0 (seq 0 (length bs)).

(** [compute_all_accelerations]: [compute_acceleration(i)] for
    [i = 0 .. bodies.size() - 1]. *)
Definition compute_all_accelerations (bs : list body) : list body :=
  foldl (fun acc i => compute_acceleration i acc) bs (seq 0 (length bs)).

End ForceEvaluator.

(** *** The integrator *)

Section Integrator.

Import CelestialBody.
Local Open Scope float_scope.

(** The three range-for loops of [step], one body at a time. *)
Definition store_old_acceleration (b : body) : body :=
  let b1 := set_ax_old (ax b) b in
  let b2 := set_ay_old (ay b1) b1 in
  set_az_old (az b2) b2.

Definition update_position (dt : float) (b : body) : body :=
  let b1 := set_x (x b + (vx b * dt + Dbl.half * ax b * dt * dt)) b in
  let b2 := set_y (y b1 + (vy b1 * dt + Dbl.half * ay b1 * dt * dt)) b1 in
  set_z (z b2 + (vz b2 * dt + Dbl.half * az b2 * dt * dt)) b2.

Definition update_velocity (dt : float) (b : body) : body :=
  let b1 := set_vx (vx b + Dbl.half * (ax_old b + ax b) * dt) b in
  let b2 := set_vy (vy b1 + Dbl.half * (ay_old b1 + ay b1) * dt) b1 in
  set_vz (vz b2 + Dbl.half * (az_old b2 + az b2) * dt) b2.

(** [step(dt)]. *)
Definition step (dt : float) (s : SolarSystem) : SolarSystem :=
  let s1 := set_bodies (store_old_acceleration <$> bodies s) s in
  let s2 := set_bodies (update_position dt <$> bodies s1) s1 in
  let s3 := set_bodies (compute_all_accelerations (bodies s2)) s2 in
  let s4 := set_bodies (update_velocity dt <$> bodies s3) s3 in
  let s5 := set_simulation_time (simulation_time s4 + dt) s4 in
  set_step_count (wrap_int (step_count s5 + 1)) s5.

End Integrator.

(** *** [static_cast<int>(double)] *)

(** The integer part of a double, rounded toward zero; [None] for NaN and
    the infinities. *)
Definition SF_trunc (f : spec_float) : option Z :=
  match f with
  | S754_zero _ => Some 0
  | S754_finite sg m e =>
      let mag := if 0 <=? e then Z.pos m * 2 ^ e else Z.pos m / 2 ^ (- e) in
      Some (if sg then - mag else mag)
  | S754_infinity _ | S754_nan => None
  end.

(** The conversion truncates.  A value outside the range of [int] (or a
    NaN) is undefined in C++; the model returns what the x86-64 conversion
    instruction returns, [INT_MIN]. *)
Definition double_to_int (d : float) : Z :=
  match SF_trunc (Prim2SF d) with
  | Some n => if (INT_MIN <=? n) && (n <=? INT_MAX) then n else INT_MIN
  | None => INT_MIN
  end.

(** *** Diagnostics, the batch run, setup and the query surface *)

Section Methods.

Import CelestialBody.
Local Open Scope float_scope.

(** The inner loop body of [calculate_total_energy], for the pair
    [(i, j)]: subtract the pair's term from [potential]. *)
Definition potential_body (bs : list body) (i j : nat) (potential : float) : float :=
  match bs !! i, bs !! j with
  | Some bi, Some bj =>
      let dx := x bj - x bi in
      let dy := y bj - y bi in
      let dz := z bj - z bi in
      let r := sqrt (dx * dx + dy * dy + dz * dz) in
      potential - GRAV * mass bi * mass bj / r
  | _, _ => potential
  end.

(** The outer loop body, for the index [i], on the two accumulators
    [(kinetic, potential)]; the inner loop runs [j = i+1 .. size-1]. *)
Definition energy_body (bs : list body) (i : nat) (acc : float * float) : float * float :=
  match bs !! i with
  | Some bi =>
      let v_sq := vx bi * vx bi + vy bi * vy bi + vz bi * vz bi in
      let kinetic := fst acc + Dbl.half * mass bi * v_sq in
      let potential :=
        foldl (fun p j => potential_body bs i j p) (snd acc)
              (seq (S i) (length bs - S i)) in
      (kinetic, potential)
  | None => acc
  end.

(** [calculate_total_energy()]: it reads [bodies] and writes only its
    two locals. *)
Definition calculate_total_energy (s : SolarSystem) : float :=
  let acc := foldl (fun acc i => energy_body (bodies s) i acc)
                   (Dbl.zero, Dbl.zero) (seq 0 (length (bodies s))) in
  fst acc + snd acc.

(** One iteration of the loop of [simulate], for the loop index [i]. *)
Definition simulate_body (dt : float) (i : Z) (s : SolarSystem) : SolarSystem :=
  let s1 := step dt s in
  if (Z.rem i 10 =? 0)%Z
  then set_bodies (add_trajectory_point <$> bodies s1) s1
  else s1.

(** [simulate(duration, dt)]. *)
Definition simulate (duration dt : float) (s : SolarSystem) : SolarSystem :=
  let steps := double_to_int (duration / dt) in
  let s1 := foldl (fun acc i => simulate_body dt i acc) s (seqZ 0 steps) in
  set_total_energy (calculate_total_energy s1) s1.

(** [init_real_solar_system()]: reset the store, push the bodies of the
    table, seed the accelerations and the reference energy.  The table is
    configuration data (seventeen hand-entered descriptors, the last of
    which needs [std::cos] and [std::sin]); it is the argument [table]
    here. *)
Definition init_real_solar_system (table : list body) (s : SolarSystem) : SolarSystem :=
  let s1 := set_bodies [] s in
  let s2 := set_simulation_time Dbl.zero s1 in
  let s3 := set_step_count 0 s2 in
  let s4 := set_bodies (bodies s3 ++ table) s3 in
  let s5 := set_bodies (compute_all_accelerations (bodies s4)) s4 in
  let s6 := set_bodies (store_old_acceleration <$> bodies s5) s5 in
  let s7 := set_initial_energy (calculate_total_energy s6) s6 in
  set_total_energy (initial_energy s7) s7.

(** [get_positions()]: [x0, y0, z0, x1, y1, z1, ...], in metres. *)
Definition get_positions (s : SolarSystem) : list float :=
  foldl (fun pos b => pos ++ [x b] ++ [y b] ++ [z b]) [] (bodies s).

(** [get_positions_au()]. *)
Definition get_positions_au (s : SolarSystem) : list float :=
  foldl (fun pos b => pos ++ [x b / AU] ++ [y b / AU] ++ [z b / AU]) [] (bodies s).

(** [get_velocities()]. *)
Definition get_velocities (s : SolarSystem) : list float :=
  foldl (fun vel b => vel ++ [vx b] ++ [vy b] ++ [vz b]) [] (bodies s).

(** An unchecked read [v[i]]; past the end, where C++ leaves the read
    undefined, the model reads a NaN. *)
Definition vec_at (v : list float) (i : nat) : float :=
  match v !! i with Some d => d | None => nan end.

(** [get_trajectory(body_index)]: the guard returns the empty vector for
    an index outside [0, bodies.size()). *)
Definition get_trajectory (body_index : Z) (s : SolarSystem) : list float :=
  if (body_index <? 0)%Z || (Z.of_nat (length (bodies s)) <=? body_index)%Z
  then []
  else
    match bodies s !! Z.to_nat body_index with
    | Some b =>
        foldl (fun traj i =>
                 traj ++ [vec_at (trajectory_x b) i / AU]
                      ++ [vec_at (trajectory_y b) i / AU]
                      ++ [vec_at (trajectory_z b) i / AU])
              [] (seq 0 (length (trajectory_x b)))
    | None => []
    end.

Definition get_body_count (s : SolarSystem) : Z := Z.of_nat (length (bodies s)).
Definition get_simulation_time (s : SolarSystem) : float := simulation_time s.
Definition get_step_count (s : SolarSystem) : Z := step_count s.
Definition get_total_energy (s : SolarSystem) : float := total_energy s.
Definition get_energy_error (s : SolarSystem) : float :=
  abs ((total_energy s - initial_energy s) / initial_energy s).

End Methods.

(** * Reference definitions

    What the operations are meant to compute, written as folds over the
    body list; the theorems below compare the loops of the source with
    them. *)

(** A triple of doubles: an acceleration, a position or a velocity. *)
Abbreviation vec3 := (float * float * float)%type.

#[global] Instance body_inhabited : Inhabited body :=
  populate CelestialBody.default.

Section Reference.

Import CelestialBody.
Local Open Scope float_scope.

Definition vadd (a b : vec3) : vec3 :=
  (a.1.1 + b.1.1, a.1.2 + b.1.2, a.2 + b.2).

Definition position (b : body) : vec3 := (x b, y b, z b).
Definition velocity (b : body) : vec3 := (vx b, vy b, vz b).
Definition acceleration (b : body) : vec3 := (ax b, ay b, az b).
Definition acceleration_old (b : body) : vec3 := (ax_old b, ay_old b, az_old b).

Definition set_acceleration (a : vec3) (b : body) : body :=
  set_az a.2 (set_ay a.1.2 (set_ax a.1.1 b)).

(** The pull of body [bj] on body [bi]:
    [GRAV * mass(j) / r^3 * (position(j) - position(i))], with [r^3]
    computed as [r_sq * sqrt r_sq]. *)
Definition pull (bi bj : body) : vec3 :=
  let dx := x bj - x bi in
  let dy := y bj - y bi in
  let dz := z bj - z bi in
  let r_sq := dx * dx + dy * dy + dz * dz in
  let r_cubed := r_sq * sqrt r_sq in
  let factor := GRAV * mass bj / r_cubed in
  (factor * dx, factor * dy, factor * dz).

(** The body indices other than [i], ascending. *)
Definition others (i n : nat) : list nat :=
  filter (fun j => j <> i) (seq 0 n).

(** The net acceleration of body [i]: the pulls of the other bodies,
    added up from zero in ascending index order. *)
Definition net_acceleration (bs : list body) (i : nat) : vec3 :=
  match bs !! i with
  | Some bi =>
      foldl (fun a j => match bs !! j with
                        | Some bj => vadd a (pull bi bj)
                        | None => a
                        end)
            (Dbl.zero, Dbl.zero, Dbl.zero) (others i (length bs))
  | None => (Dbl.zero, Dbl.zero, Dbl.zero)
  end.

(** Every body given its net acceleration for the positions in [bs]. *)
Definition with_net_acceleration (bs : list body) : list body :=
  imap (fun i b => set_acceleration (net_acceleration bs i) b) bs.

(** The positions the force evaluator sees inside [step]. *)
Definition drifted (dt : float) (bs : list body) : list body :=
  update_position dt <$> (store_old_acceleration <$> bs).

(** The Ready state of the integrator: every body's acceleration is the
    one the force evaluator gives for the current positions. *)
Definition Ready (s : SolarSystem) : Prop :=
  forall i b, bodies s !! i = Some b ->
              acceleration b = net_acceleration (bodies s) i.

(** Two bodies with the same mass and position. *)
Definition same_place (b1 b2 : body) : Prop :=
  mass b1 = mass b2 /\ position b1 = position b2.

(** Two bodies with the same mass, position, velocity and acceleration:
    the configuration the dynamics read. *)
Definition same_motion (b1 b2 : body) : Prop :=
  mass b1 = mass b2 /\ position b1 = position b2 /\
  velocity b1 = velocity b2 /\ acceleration b1 = acceleration b2.

(** The trajectory buffer of a body as a sequence of position samples,
    oldest first. *)
Definition samples (b : body) : list vec3 :=
  zip (zip (trajectory_x b) (trajectory_y b)) (trajectory_z b).

(** The three coordinate vectors of the buffer have one length. *)
Definition aligned (b : body) : Prop :=
  length (trajectory_y b) = length (trajectory_x b) /\
  length (trajectory_z b) = length (trajectory_x b).

(** The configured capacity of the buffer. *)
Definition capacity (b : body) : nat := Z.to_nat (trajectory_max_points b).

(** The last [c] elements of a sequence. *)
Definition window {A : Type} (c : nat) (l : list A) : list A :=
  drop (length l - c) l.

(** A body moved to the position [p]. *)
Definition move_to (p : vec3) (b : body) : body :=
  set_z p.2 (set_y p.1.2 (set_x p.1.1 b)).

(** One push into the buffer: the body is at [p] when
    [add_trajectory_point] runs. *)
Definition push (b : body) (p : vec3) : body :=
  add_trajectory_point (move_to p b).

(** A sample in astronomical units, as three consecutive doubles. *)
Definition in_AU (p : vec3) : list float := [p.1.1 / AU; p.1.2 / AU; p.2 / AU].

(** A position in metres, as three consecutive doubles. *)
Definition in_metres (p : vec3) : list float := [p.1.1; p.1.2; p.2].

(** [1/2 * mass * |velocity|^2]. *)
Definition kinetic_term (b : body) : float :=
  Dbl.half * mass b * (vx b * vx b + vy b * vy b + vz b * vz b).

(** The Euclidean distance [r(i,j)]. *)
Definition distance (bi bj : body) : float :=
  let dx := x bj - x bi in
  let dy := y bj - y bi in
  let dz := z bj - z bi in
  sqrt (dx * dx + dy * dy + dz * dz).

(** [- GRAV * mass(i) * mass(j) / r(i,j)]. *)
Definition potential_term (bi bj : body) : float :=
  - (GRAV * mass bi * mass bj / distance bi bj).

(** The kinetic terms of all bodies, added up from zero in index
    order. *)
Definition kinetic_energy (bs : list body) : float :=
  foldl (fun k b => k + kinetic_term b) Dbl.zero bs.

(** The unordered pairs of distinct indices below [n], each written
    once, smaller index first. *)
Definition pairs (n : nat) : list (nat * nat) :=
  i ← seq 0 n; (fun j => (i, j)) <$> seq (S i) (n - S i).

(** The potential terms of all pairs, added up from zero. *)
Definition potential_energy (bs : list body) : float :=
  foldl (fun p ij => p + potential_term (bs !!! ij.1) (bs !!! ij.2))
        Dbl.zero (pairs (length bs)).

(** Two bodies that the integrator cannot tell apart: the same motion
    and the same saved acceleration. *)
Definition same_dynamics (b1 b2 : body) : Prop :=
  same_motion b1 b2 /\ acceleration_old b1 = acceleration_old b2.

(** The body [b] carrying the trajectory buffer of [t]. *)
Definition graft (t b : body) : body :=
  set_trajectory_z (trajectory_z t)
    (set_trajectory_y (trajectory_y t)
       (set_trajectory_x (trajectory_x t) b)).

(** [k] calls of [step(dt)] in a row. *)
Definition run_steps (dt : float) (k : nat) (s : SolarSystem) : SolarSystem :=
  Nat.iter k (step dt) s.

(** The loop indices below [k] at which [simulate] records. *)
Definition recording_indices (k : nat) : list nat :=
  filter (fun j => j mod 10 = 0)%nat (seq 0 k).

(** The positions of body [i] that the first [k] iterations of the loop
    of [simulate] record: the position after step [j + 1] for every
    loop index [j] that is a multiple of ten. *)
Definition recorded (dt : float) (s : SolarSystem) (i k : nat) : list vec3 :=
  (fun j => position (bodies (run_steps dt (S j) s) !!! i))
    <$> recording_indices k.

(** The state of [simulate] after the first [k] iterations of its
    loop. *)
Definition simulate_prefix (dt : float) (k : nat) (s : SolarSystem) : SolarSystem :=
  foldl (fun acc i => simulate_body dt i acc) s (seqZ 0 (Z.of_nat k)).

End Reference.

(** The largest integer not above a double; [None] for NaN and the
    infinities. *)
Definition SF_floor (f : spec_float) : option Z :=
  match f with
  | S754_zero _ => Some 0
  | S754_finite sg m e =>
      let n := if sg then Z.neg m else Z.pos m in
      Some (if 0 <=? e then n * 2 ^ e else n / 2 ^ (- e))
  | S754_infinity _ | S754_nan => None
  end.

Definition double_floor (d : float) : option Z := SF_floor (Prim2SF d).

(** * A small body store

    The first four descriptors of the table in [init_real_solar_system],
    as written there, and stores built from them. *)

Module Sample.

Import CelestialBody.
Local Open Scope float_scope.

Definition M_PI : float := 3.14159265358979323846.

Definition sun : body :=
  {| name := "Sun"; id := 0; parent_id := -1;
     mass := 1.98892e30; radius := 6.96340e8;
     obliquity := 7.25 * M_PI / 180.0; rotation_period := 25.38 * DAY;
     x := 0; y := 0; z := 0; vx := 0; vy := 0; vz := 0;
     ax := 0; ay := 0; az := 0; ax_old := 0; ay_old := 0; az_old := 0;
     semi_major_axis := 0; eccentricity := 0; inclination := 0;
     orbital_period := 0;
     trajectory_x := []; trajectory_y := []; trajectory_z := [];
     trajectory_max_points := 10 |}.

Definition mercury_semi_major_axis : float := 0.387098 * AU.
Definition mercury_x : float := mercury_semi_major_axis * (1 - 0.205630).

Definition mercury : body :=
  {| name := "Mercury"; id := 1; parent_id := -1;
     mass := 3.30114e23; radius := 2.4397e6;
     obliquity := 0.034 * M_PI / 180.0; rotation_period := 58.646 * DAY;
     x := mercury_x; y := 0; z := 0;
     vx := 0;
     vy := sqrt (GRAV * mass sun * (2.0 / mercury_x - 1.0 / mercury_semi_major_axis));
     vz := 0;
     ax := 0; ay := 0; az := 0; ax_old := 0; ay_old := 0; az_old := 0;
     semi_major_axis := mercury_semi_major_axis; eccentricity := 0.205630;
     inclination := 7.005 * M_PI / 180.0; orbital_period := 87.969 * DAY;
     trajectory_x := []; trajectory_y := []; trajectory_z := [];
     trajectory_max_points := 500 |}.

Definition venus_semi_major_axis : float := 0.723332 * AU.
Definition venus_x : float := venus_semi_major_axis * (1 - 0.006772).

Definition venus : body :=
  {| name := "Venus"; id := 2; parent_id := -1;
     mass := 4.86747e24; radius := 6.0518e6;
     obliquity := 177.36 * M_PI / 180.0; rotation_period := -243.025 * DAY;
     x := venus_x; y := 0; z := 0;
     vx := 0;
     vy := sqrt (GRAV * mass sun * (2.0 / venus_x - 1.0 / venus_semi_major_axis));
     vz := 0;
     ax := 0; ay := 0; az := 0; ax_old := 0; ay_old := 0; az_old := 0;
     semi_major_axis := venus_semi_major_axis; eccentricity := 0.006772;
     inclination := 3.39458 * M_PI / 180.0; orbital_period := 224.701 * DAY;
     trajectory_x := []; trajectory_y := []; trajectory_z := [];
     trajectory_max_points := 800 |}.

Definition earth_semi_major_axis : float := 1.000001018 * AU.
Definition earth_x : float := earth_semi_major_axis * (1 - 0.0167086).

Definition earth : body :=
  {| name := "Earth"; id := 3; parent_id := -1;
     mass := 5.97237e24; radius := 6.371e6;
     obliquity := 23.4393 * M_PI / 180.0; rotation_period := 0.99726968 * DAY;
     x := earth_x; y := 0; z := 0;
     vx := 0;
     vy := sqrt (GRAV * mass sun * (2.0 / earth_x - 1.0 / earth_semi_major_axis));
     vz := 0;
     ax := 0; ay := 0; az := 0; ax_old := 0; ay_old := 0; az_old := 0;
     semi_major_axis := earth_semi_major_axis; eccentricity := 0.0167086;
     inclination := 0.00005 * M_PI / 180.0;
     orbital_period := 365.256363004 * DAY;
     trajectory_x := []; trajectory_y := []; trajectory_z := [];
     trajectory_max_points := 1000 |}.

(** The store after setup with these four bodies. *)
Definition inner_system : SolarSystem :=
  init_real_solar_system [sun; mercury; venus; earth] SolarSystem_new.

(** The body in slot [i] of a store. *)
Definition slot (s : SolarSystem) (i : nat) : body := bodies s !!! i.

(** The same configuration in a store with another history: every
    buffer holds a sample, the clock, the counter and the cached
    energies differ. *)
Definition inner_system_later : SolarSystem :=
  set_total_energy 1
    (set_step_count 7
       (set_simulation_time 25200
          (set_bodies (add_trajectory_point <$> bodies inner_system)
                      inner_system))).

(** Two bodies at one place: a second Sun on top of the first. *)
Definition twin_suns : list body := [sun; set_mass 1.0e30 sun].

(** Twelve positions along the x axis. *)
Definition twelve_positions : list vec3 :=
  (fun k => (of_uint63 (Uint63.of_Z (Z.of_nat k)), 0, 0)) <$> seq 1 12.

(** A store whose only body is the Sun after twelve pushes. *)
Definition sun_tracked : SolarSystem :=
  set_bodies [foldl push sun twelve_positions] SolarSystem_new.

End Sample.

(** * The rest of the query surface *)

Definition M_PI : float := 3.14159265358979323846%float.

Section MoreMethods.

Import CelestialBody.
Local Open Scope float_scope.

(** [calculate_angular_momentum()]: the three accumulators, then the
    vector [{Lx, Ly, Lz, |L|}]. *)
Definition angular_momentum_body (L : vec3) (b : body) : vec3 :=
  (L.1.1 + mass b * (y b * vz b - z b * vy b),
   L.1.2 + mass b * (z b * vx b - x b * vz b),
   L.2 + mass b * (x b * vy b - y b * vx b)).

Definition calculate_angular_momentum (s : SolarSystem) : list float :=
  let L := foldl angular_momentum_body (Dbl.zero, Dbl.zero, Dbl.zero) (bodies s) in
  let Lx := L.1.1 in
  let Ly := L.1.2 in
  let Lz := L.2 in
  [Lx; Ly; Lz; sqrt (Lx * Lx + Ly * Ly + Lz * Lz)].

(** [get_masses()], [get_radii()], [get_names()]. *)
Definition get_masses (s : SolarSystem) : list float :=
  foldl (fun m b => m ++ [mass b]) [] (bodies s).

Definition get_radii (s : SolarSystem) : list float :=
  foldl (fun r b => r ++ [radius b]) [] (bodies s).

Definition get_names (s : SolarSystem) : list string :=
  foldl (fun n b => n ++ [name b]) [] (bodies s).

(** [get_orbital_period(body_index)]: the guard also turns away index 0,
    the body whose mass the formula divides by. *)
Definition get_orbital_period (body_index : Z) (s : SolarSystem) : float :=
  if (body_index <=? 0)%Z || (Z.of_nat (length (bodies s)) <=? body_index)%Z
  then Dbl.zero
  else
    match bodies s !! Z.to_nat body_index, bodies s !! 0%nat with
    | Some b, Some b0 =>
        let r := sqrt (x b * x b + y b * y b + z b * z b) in
        2.0 * M_PI * sqrt (r * r * r / (GRAV * mass b0))
    | _, _ => Dbl.zero
    end.

(** [get_distance_from_sun(body_index)]. *)
Definition get_distance_from_sun (body_index : Z) (s : SolarSystem) : float :=
  if (body_index <? 0)%Z || (Z.of_nat (length (bodies s)) <=? body_index)%Z
  then Dbl.zero
  else
    match bodies s !! Z.to_nat body_index with
    | Some b => sqrt (x b * x b + y b * y b + z b * z b)
    | None => Dbl.zero
    end.

(** [get_speed(body_index)]. *)
Definition get_speed (body_index : Z) (s : SolarSystem) : float :=
  if (body_index <? 0)%Z || (Z.of_nat (length (bodies s)) <=? body_index)%Z
  then Dbl.zero
  else
    match bodies s !! Z.to_nat body_index with
    | Some b => sqrt (vx b * vx b + vy b * vy b + vz b * vz b)
    | None => Dbl.zero
    end.

End MoreMethods.

(** * Further reference definitions *)

Section MoreReference.

Import CelestialBody.
Local Open Scope float_scope.

(** A double that is a zero, a subnormal or a normal number. *)
Definition finite (d : float) : Prop :=
  match Prim2SF d with
  | S754_zero _ | S754_finite _ _ _ => True
  | S754_infinity _ | S754_nan => False
  end.

(** A finite double other than the two zeros. *)
Definition finite_nonzero (d : float) : Prop :=
  match Prim2SF d with
  | S754_finite _ _ _ => True
  | _ => False
  end.

(** One of the two zeros. *)
Definition is_zero (d : float) : Prop :=
  match Prim2SF d with
  | S754_zero _ => True
  | _ => False
  end.

(** What [step] and [add_trajectory_point] never write: the identity, the
    physical properties, the reference orbital elements and the capacity
    of a body. *)
Definition same_identity (b1 b2 : body) : Prop :=
  name b1 = name b2 /\ id b1 = id b2 /\ parent_id b1 = parent_id b2 /\
  mass b1 = mass b2 /\ radius b1 = radius b2 /\
  obliquity b1 = obliquity b2 /\ rotation_period b1 = rotation_period b2 /\
  semi_major_axis b1 = semi_major_axis b2 /\
  eccentricity b1 = eccentricity b2 /\ inclination b1 = inclination b2 /\
  orbital_period b1 = orbital_period b2 /\
  trajectory_max_points b1 = trajectory_max_points b2.

(** A buffer the code can have built: three vectors of one length, not
    longer than a capacity between zero and [INT_MAX]. *)
Definition well_formed_buffer (b : body) : Prop :=
  (0 <= trajectory_max_points b <= INT_MAX)%Z /\ aligned b /\
  (length (samples b) <= capacity b)%nat.

(** A body in the plane [z = 0], moving in it, with finite mass,
    coordinates and velocity. *)
Definition planar (b : body) : Prop :=
  is_zero (z b) /\ is_zero (vz b) /\
  finite (mass b) /\ finite (x b) /\ finite (y b) /\
  finite (vx b) /\ finite (vy b).

End MoreReference.

(** * Two more sample stores *)

Module MoreSamples.

Import CelestialBody.
Local Open Scope float_scope.

(** A store whose only body is the Sun. *)
Definition lone_sun : SolarSystem :=
  init_real_solar_system [Sample.sun] SolarSystem_new.

(** Mercury with [trajectory_max_points] set to [-1]. *)
Definition unbounded_mercury : body :=
  {| name := name Sample.mercury; id := id Sample.mercury;
     parent_id := parent_id Sample.mercury;
     mass := mass Sample.mercury; radius := radius Sample.mercury;
     obliquity := obliquity Sample.mercury;
     rotation_period := rotation_period Sample.mercury;
     x := x Sample.mercury; y := y Sample.mercury; z := z Sample.mercury;
     vx := vx Sample.mercury; vy := vy Sample.mercury; vz := vz Sample.mercury;
     ax := 0; ay := 0; az := 0; ax_old := 0; ay_old := 0; az_old := 0;
     semi_major_axis := semi_major_axis Sample.mercury;
     eccentricity := eccentricity Sample.mercury;
     inclination := inclination Sample.mercury;
     orbital_period := orbital_period Sample.mercury;
     trajectory_x := []; trajectory_y := []; trajectory_z := [];
     trajectory_max_points := -1 |}.

End MoreSamples.

(** * Facts about doubles

    Proved from the specification of the primitive operations
    ([FloatAxioms]) by cases on the IEEE-754 class of the operands. *)

Module DblFacts.

Local Open Scope float_scope.

Lemma Prim2SF_nan : Prim2SF nan = S754_nan.
Proof. reflexivity. Qed.

Lemma Prim2SF_zero : Prim2SF 0 = S754_zero false.
Proof. reflexivity. Qed.

Lemma of_SF_nan (d : float) : Prim2SF d = S754_nan -> d = nan.
Proof. intros H. apply Prim2SF_inj. rewrite H. reflexivity. Qed.

Lemma of_SF_zero (d : float) : Prim2SF d = S754_zero false -> d = 0.
Proof. intros H. apply Prim2SF_inj. rewrite H. reflexivity. Qed.

Lemma add_nan_r (a : float) : a + nan = nan.
Proof.
  apply of_SF_nan. rewrite add_spec, Prim2SF_nan.
  unfold SF64add, SFadd. destruct (Prim2SF a) as [| [] | |]; reflexivity.
Qed.

Lemma add_nan_l (a : float) : nan + a = nan.
Proof.
  apply of_SF_nan. rewrite add_spec, Prim2SF_nan. reflexivity.
Qed.

Lemma mul_nan_r (a : float) : a * nan = nan.
Proof.
  apply of_SF_nan. rewrite mul_spec, Prim2SF_nan.
  unfold SF64mul, SFmul. destruct (Prim2SF a); reflexivity.
Qed.

Lemma mul_nan_l (a : float) : nan * a = nan.
Proof.
  apply of_SF_nan. rewrite mul_spec, Prim2SF_nan. reflexivity.
Qed.

Lemma div_nan_r (a : float) : a / nan = nan.
Proof.
  apply of_SF_nan. rewrite div_spec, Prim2SF_nan.
  unfold SF64div, SFdiv. destruct (Prim2SF a); reflexivity.
Qed.

(** Dividing by zero gives an infinity or a NaN, and either times zero
    is a NaN. *)
Lemma div_zero_mul_zero (a : float) : a / 0 * 0 = nan.
Proof.
  apply of_SF_nan. rewrite mul_spec, div_spec, Prim2SF_zero.
  unfold SF64mul, SF64div, SFdiv, SFmul.
  destruct (Prim2SF a); reflexivity.
Qed.

(** A double minus itself is [+0], or a NaN when it is not finite. *)
Lemma sub_diag (a : float) : a - a = 0 \/ a - a = nan.
Proof.
  destruct (Prim2SF a) as [sg | sg | | sg m e] eqn:Ha.
  - left. apply of_SF_zero. rewrite sub_spec, Ha. destruct sg; reflexivity.
  - right. apply of_SF_nan. rewrite sub_spec, Ha. destruct sg; reflexivity.
  - right. apply of_SF_nan. rewrite sub_spec, Ha. reflexivity.
  - left. apply of_SF_zero. rewrite sub_spec, Ha.
    unfold SF64sub, SFsub. cbv zeta. rewrite Z.sub_diag. reflexivity.
Qed.

Lemma cond_Zopp_negb (sg : bool) (n : Z) :
  cond_Zopp (negb sg) n = (- cond_Zopp sg n)%Z.
Proof. destruct sg; simpl; lia. Qed.

(** Subtraction is the addition of the opposite, bit for bit. *)
Lemma sub_add_opp (a b : float) : a - b = a + (- b).
Proof.
  apply Prim2SF_inj. rewrite sub_spec, add_spec, opp_spec.
  unfold SF64sub, SF64add, SFsub, SFadd, SFopp.
  destruct (Prim2SF a) as [[] | [] | | sa ma ea],
           (Prim2SF b) as [[] | [] | | sb mb eb]; try reflexivity.
  cbv zeta. rewrite cond_Zopp_negb. reflexivity.
Qed.

End DblFacts.

(** * The force evaluator computes the net acceleration *)

Section ForceFacts.

Import CelestialBody.

Lemma foldl_ext_in {A B : Type} (f g : A -> B -> A) (l : list B) (a : A) :
  (forall a j, j ∈ l -> f a j = g a j) -> foldl f a l = foldl g a l.
Proof.
  revert a. induction l as [| j l IH]; intros a H; simpl; [done |].
  rewrite H by left. apply IH. intros a' j' Hj'. apply H. by right.
Qed.

Lemma pull_same_place (bi bi' bj bj' : body) :
  same_place bi bi' -> same_place bj bj' -> pull bi bj = pull bi' bj'.
Proof.
  intros [Hm Hp] [Hm' Hp']. unfold position in *. unfold pull.
  injection Hp as -> -> ->. injection Hp' as -> -> ->. rewrite Hm'.
  reflexivity.
Qed.

(** One iteration of the loop adds one pull to the accumulated
    acceleration of body [i], and touches nothing else. *)
Lemma compute_acceleration_body_insert (bs : list body) (i j : nat) (bi : body) (a : vec3) :
  bs !! i = Some bi ->
  compute_acceleration_body i j (<[i := set_acceleration a bi]> bs) =
  <[i := set_acceleration
           (if decide (j = i) then a
            else match bs !! j with
                 | Some bj => vadd a (pull bi bj)
                 | None => a
                 end) bi]> bs.
Proof.
  intros Hi. unfold compute_acceleration_body.
  destruct (decide (j = i)) as [-> | Hne]; [done |].
  rewrite list_lookup_insert_eq by (by eapply lookup_lt_Some).
  rewrite list_lookup_insert_ne by done.
  destruct (bs !! j) as [bj |] eqn:Hj; [| done].
  rewrite list_insert_insert_eq. reflexivity.
Qed.

Lemma compute_acceleration_loop (bs : list body) (i : nat) (bi : body) (js : list nat) (a : vec3) :
  bs !! i = Some bi ->
  foldl (fun acc j => compute_acceleration_body i j acc)
        (<[i := set_acceleration a bi]> bs) js =
  <[i := set_acceleration
           (foldl (fun a j => match bs !! j with
                              | Some bj => vadd a (pull bi bj)
                              | None => a
                              end) a (filter (fun j => j <> i) js)) bi]> bs.
Proof.
  intros Hi. revert a. induction js as [| j js IH]; intros a; [done |].
  cbn [foldl]. rewrite compute_acceleration_body_insert by done.
  rewrite IH. rewrite filter_cons.
  destruct (decide (j = i)) as [-> | Hne].
  - rewrite decide_False by (intros H; by apply H). done.
  - rewrite decide_True by done. done.
Qed.

(** [compute_acceleration(i)] overwrites the acceleration of body [i]
    with the net acceleration and leaves the vector otherwise as it is. *)
Lemma compute_acceleration_spec (bs : list body) (i : nat) (bi : body) :
  bs !! i = Some bi ->
  compute_acceleration i bs =
  <[i := set_acceleration (net_acceleration bs i) bi]> bs.
Proof.
  intros Hi. unfold compute_acceleration, net_acceleration. rewrite Hi.
  replace (alter _ i bs)
    with (<[i := set_acceleration (Dbl.zero, Dbl.zero, Dbl.zero) bi]> bs).
  - by rewrite compute_acceleration_loop.
  - symmetry. apply list_eq. intros k.
    destruct (decide (k = i)) as [-> | Hne].
    + rewrite list_lookup_alter_eq, Hi.
      rewrite list_lookup_insert_eq by (by eapply lookup_lt_Some). done.
    + rewrite list_lookup_alter_ne, list_lookup_insert_ne by done. done.
Qed.

(** The net acceleration reads masses and positions only. *)
Lemma net_acceleration_same_place (bs bs' : list body) (i : nat) :
  Forall2 same_place bs bs' ->
  net_acceleration bs i = net_acceleration bs' i.
Proof.
  intros H. unfold net_acceleration.
  rewrite <- (Forall2_length _ _ _ H).
  destruct (bs !! i) as [bi |] eqn:Hi.
  - destruct (Forall2_lookup_l _ _ _ _ _ H Hi) as (bi' & -> & Hbi).
    apply foldl_ext_in. intros a j _.
    destruct (bs !! j) as [bj |] eqn:Hj.
    + destruct (Forall2_lookup_l _ _ _ _ _ H Hj) as (bj' & -> & Hbj).
      by rewrite (pull_same_place _ _ _ _ Hbi Hbj).
    + assert (bs' !! j = None) as ->; [| done].
      apply lookup_ge_None. rewrite <- (Forall2_length _ _ _ H).
      by apply lookup_ge_None.
  - assert (bs' !! i = None) as ->; [| done].
    apply lookup_ge_None. rewrite <- (Forall2_length _ _ _ H).
    by apply lookup_ge_None.
Qed.

(** The state of [compute_all_accelerations] after its first [k]
    iterations. *)
Lemma compute_all_accelerations_prefix (bs : list body) (k : nat) :
  (k <= length bs)%nat ->
  foldl (fun acc i => compute_acceleration i acc) bs (seq 0 k) =
  imap (fun i b => if decide (i < k)%nat
                   then set_acceleration (net_acceleration bs i) b else b) bs.
Proof.
  induction k as [| k IH]; intros Hk.
  - cbn [seq foldl]. apply list_eq. intros i.
    rewrite list_lookup_imap. destruct (bs !! i); [| done].
    cbn. rewrite decide_False by lia. done.
  - rewrite seq_S, foldl_app, IH by lia. cbn [foldl Nat.add].
    destruct (lookup_lt_is_Some_2 bs k) as [bk Hbk]; [lia |].
    set (st := imap _ bs).
    assert (Hst : st !! k = Some bk).
    { unfold st. rewrite list_lookup_imap, Hbk. cbn.
      rewrite decide_False by lia. done. }
    assert (Hsame : Forall2 same_place st bs).
    { apply Forall2_same_length_lookup. split.
      - unfold st. by rewrite length_imap.
      - intros i b1 b2 H1 H2. unfold st in H1.
        rewrite list_lookup_imap, H2 in H1. cbn in H1.
        injection H1 as <-. destruct (decide (i < k)%nat); done. }
    rewrite (compute_acceleration_spec _ _ _ Hst).
    rewrite (net_acceleration_same_place _ _ _ Hsame).
    apply list_eq. intros i. rewrite list_lookup_imap.
    destruct (decide (i = k)) as [-> | Hne].
    + rewrite list_lookup_insert_eq by (by eapply lookup_lt_Some).
      rewrite Hbk. cbn. rewrite decide_True by lia. done.
    + rewrite list_lookup_insert_ne by done. unfold st.
      rewrite list_lookup_imap. destruct (bs !! i) as [b |]; [| done].
      cbn. destruct (decide (i < k)%nat).
      * rewrite decide_True by lia. done.
      * rewrite decide_False by lia. done.
Qed.

(** [compute_all_accelerations()] gives every body the net acceleration
    for the positions it started from: clearing and refilling the
    acceleration of one body does not disturb the evaluation of the
    next. *)
Lemma compute_all_accelerations_spec (bs : list body) :
  compute_all_accelerations bs = with_net_acceleration bs.
Proof.
  unfold compute_all_accelerations, with_net_acceleration.
  rewrite compute_all_accelerations_prefix by done.
  apply list_eq. intros i. rewrite !list_lookup_imap.
  destruct (bs !! i) as [b |] eqn:Hb; [| done]. cbn.
  rewrite decide_True; [done |]. by eapply lookup_lt_Some.
Qed.

Lemma with_net_acceleration_lookup (bs : list body) (i : nat) (b : body) :
  bs !! i = Some b ->
  with_net_acceleration bs !! i =
  Some (set_acceleration (net_acceleration bs i) b).
Proof.
  intros H. unfold with_net_acceleration.
  by rewrite list_lookup_imap, H.
Qed.

End ForceFacts.

(** * The integrator *)

Section IntegratorFacts.

Import CelestialBody.
Local Open Scope float_scope.

Lemma wrap_int_small (n : Z) :
  (INT_MIN <= n <= INT_MAX)%Z -> wrap_int n = n.
Proof.
  unfold INT_MIN, INT_MAX, wrap_int. intros H.
  rewrite Z.mod_small by lia. lia.
Qed.

(** The four phases of [step] on the body vector. *)
Lemma step_bodies (dt : float) (s : SolarSystem) :
  bodies (step dt s) =
  update_velocity dt <$> with_net_acceleration (drifted dt (bodies s)).
Proof.
  unfold step, set_step_count, set_simulation_time, set_bodies.
  cbn [bodies]. by rewrite compute_all_accelerations_spec.
Qed.

Lemma step_simulation_time (dt : float) (s : SolarSystem) :
  simulation_time (step dt s) = simulation_time s + dt.
Proof. reflexivity. Qed.

Lemma step_step_count_wrap (dt : float) (s : SolarSystem) :
  step_count (step dt s) = wrap_int (step_count s + 1).
Proof. reflexivity. Qed.

Lemma step_step_count (dt : float) (s : SolarSystem) :
  (INT_MIN <= step_count s < INT_MAX)%Z ->
  step_count (step dt s) = (step_count s + 1)%Z.
Proof.
  intros H. rewrite step_step_count_wrap. apply wrap_int_small.
  unfold INT_MIN, INT_MAX in *. lia.
Qed.

Lemma step_total_energy (dt : float) (s : SolarSystem) :
  total_energy (step dt s) = total_energy s.
Proof. reflexivity. Qed.

Lemma step_initial_energy (dt : float) (s : SolarSystem) :
  initial_energy (step dt s) = initial_energy s.
Proof. reflexivity. Qed.

Lemma step_length (dt : float) (s : SolarSystem) :
  length (bodies (step dt s)) = length (bodies s).
Proof.
  rewrite step_bodies. unfold with_net_acceleration, drifted.
  by rewrite length_fmap, length_imap, !length_fmap.
Qed.

(** What [step] leaves in slot [i]. *)
Lemma step_lookup (dt : float) (s : SolarSystem) (i : nat) (b : body) :
  bodies s !! i = Some b ->
  bodies (step dt s) !! i =
  Some (update_velocity dt
          (set_acceleration (net_acceleration (drifted dt (bodies s)) i)
             (update_position dt (store_old_acceleration b)))).
Proof.
  intros H. rewrite step_bodies, list_lookup_fmap.
  erewrite with_net_acceleration_lookup; [done |].
  unfold drifted. by rewrite !list_lookup_fmap, H.
Qed.

(** The members of a body after the four phases of [step], for a net
    acceleration [a] found in the third. *)
Lemma verlet_body_fields (a : vec3) (dt : float) (b : body) :
  let b' := update_velocity dt
              (set_acceleration a
                 (update_position dt (store_old_acceleration b))) in
  acceleration_old b' = acceleration b /\
  position b' = (x b + (vx b * dt + Dbl.half * ax b * dt * dt),
                 y b + (vy b * dt + Dbl.half * ay b * dt * dt),
                 z b + (vz b * dt + Dbl.half * az b * dt * dt)) /\
  acceleration b' = a /\
  velocity b' = (vx b + Dbl.half * (ax b + ax b') * dt,
                 vy b + Dbl.half * (ay b + ay b') * dt,
                 vz b + Dbl.half * (az b + az b') * dt) /\
  mass b' = mass b /\
  graft b b' = b'.
Proof. destruct a as [[a1 a2] a3], b. lazy. repeat split. Qed.

Lemma same_place_kicked (a : vec3) (dt : float) (b : body) :
  same_place (update_velocity dt (set_acceleration a b)) b.
Proof. destruct a as [[a1 a2] a3], b. by split. Qed.

(** After [step] the bodies sit where the force evaluator saw them. *)
Lemma step_same_place (dt : float) (s : SolarSystem) :
  Forall2 same_place (bodies (step dt s)) (drifted dt (bodies s)).
Proof.
  apply Forall2_same_length_lookup. split.
  - rewrite step_length. unfold drifted. by rewrite !length_fmap.
  - intros i b1 b2 H1 H2. unfold drifted in H2.
    rewrite !list_lookup_fmap in H2.
    destruct (bodies s !! i) as [b |] eqn:Hb; [| done].
    rewrite (step_lookup _ _ _ _ Hb) in H1.
    injection H1 as <-. injection H2 as <-. apply same_place_kicked.
Qed.

(** [step] ends in the Ready state, whatever state it started from. *)
Lemma step_Ready (dt : float) (s : SolarSystem) : Ready (step dt s).
Proof.
  intros i b' Hb'.
  rewrite (net_acceleration_same_place _ _ i (step_same_place dt s)).
  destruct (bodies s !! i) as [b |] eqn:Hb.
  - rewrite (step_lookup _ _ _ _ Hb) in Hb'. injection Hb' as <-.
    unfold acceleration. cbn.
    by destruct (net_acceleration (drifted dt (bodies s)) i) as [[? ?] ?].
  - apply lookup_lt_Some in Hb'. rewrite step_length in Hb'.
    apply lookup_ge_None in Hb. lia.
Qed.

End IntegratorFacts.

(** * The trajectory buffer *)

Section TrajectoryFacts.

Import CelestialBody.

Lemma to_size_t_small (n : Z) : (0 <= n < 2 ^ 64)%Z -> to_size_t n = n.
Proof. intros H. unfold to_size_t. by rewrite Z.mod_small. Qed.

Lemma samples_length (b : body) :
  aligned b -> length (samples b) = length (trajectory_x b).
Proof.
  intros [Hy Hz]. unfold samples. rewrite !length_zip. lia.
Qed.

Lemma zip3_snoc (lx ly lz : list float) (px py pz : float) :
  length ly = length lx -> length lz = length lx ->
  zip (zip (lx ++ [px]) (ly ++ [py])) (lz ++ [pz]) =
  zip (zip lx ly) lz ++ [(px, py, pz)].
Proof.
  intros Hy Hz. rewrite !zip_with_app; [done | |].
  - rewrite length_zip. lia.
  - lia.
Qed.

Lemma zip3_drop (n : nat) (lx ly lz : list float) :
  zip (zip (drop n lx) (drop n ly)) (drop n lz) = drop n (zip (zip lx ly) lz).
Proof. by rewrite !zip_with_drop. Qed.

(** [add_trajectory_point] appends the current position and, when the
    buffer has outgrown the capacity, erases exactly one sample at the
    front. *)
Lemma add_trajectory_point_samples (b : body) :
  (0 <= trajectory_max_points b < 2 ^ 64)%Z -> aligned b ->
  samples (add_trajectory_point b) =
    (if decide (capacity b < length (samples b) + 1)%nat
     then drop 1 (samples b ++ [position b])
     else samples b ++ [position b]) /\
  aligned (add_trajectory_point b).
Proof.
  intros Hcap Hal. pose proof (samples_length b Hal) as Hlen.
  destruct Hal as [Hy Hz].
  unfold add_trajectory_point. cbn.
  rewrite to_size_t_small by done. rewrite length_app. cbn [length].
  destruct (Z.ltb_spec (trajectory_max_points b)
              (Z.of_nat (length (trajectory_x b) + 1))) as [Hlt | Hge].
  - rewrite decide_True by (unfold capacity; lia).
    split.
    + unfold samples, erase_begin. cbn.
      rewrite zip3_drop. by rewrite zip3_snoc.
    + unfold aligned, erase_begin. cbn.
      rewrite !length_drop, !length_app. cbn. lia.
  - rewrite decide_False by (unfold capacity; lia).
    split.
    + unfold samples. cbn. by rewrite zip3_snoc.
    + unfold aligned. cbn. rewrite !length_app. cbn. lia.
Qed.

Lemma add_trajectory_point_graft (b : body) :
  add_trajectory_point b =
  set_trajectory_z (trajectory_z (add_trajectory_point b))
    (set_trajectory_y (trajectory_y (add_trajectory_point b))
       (set_trajectory_x (trajectory_x (add_trajectory_point b)) b)).
Proof.
  unfold add_trajectory_point. cbn.
  destruct (_ <? _)%Z; reflexivity.
Qed.

Lemma add_trajectory_point_capacity (b : body) :
  trajectory_max_points (add_trajectory_point b) = trajectory_max_points b.
Proof. by rewrite add_trajectory_point_graft. Qed.

Lemma add_trajectory_point_position (b : body) :
  position (add_trajectory_point b) = position b.
Proof. by rewrite add_trajectory_point_graft. Qed.

Lemma window_snoc_full {A : Type} (c : nat) (l : list A) (a : A) :
  (length l <= c)%nat ->
  window c (l ++ [a]) =
  if decide (c < length l + 1)%nat then drop 1 (l ++ [a]) else l ++ [a].
Proof.
  intros H. unfold window. rewrite length_app. cbn [length].
  destruct (decide (c < length l + 1)%nat).
  - by replace (length l + 1 - c)%nat with 1%nat by lia.
  - by replace (length l + 1 - c)%nat with 0%nat by lia.
Qed.

Lemma window_length {A : Type} (c : nat) (l : list A) :
  (length (window c l) <= c)%nat.
Proof. unfold window. rewrite length_drop. lia. Qed.

Lemma window_small {A : Type} (c : nat) (l : list A) :
  (length l <= c)%nat -> window c l = l.
Proof.
  intros H. unfold window. by replace (length l - c)%nat with 0%nat by lia.
Qed.

Lemma window_window_snoc {A : Type} (c : nat) (l : list A) (a : A) :
  window c (window c l ++ [a]) = window c (l ++ [a]).
Proof.
  destruct (decide (c = 0)%nat) as [-> | Hc].
  { unfold window. by rewrite !Nat.sub_0_r, !drop_all. }
  unfold window. rewrite !length_app, length_drop. cbn [length].
  destruct (decide (length l <= c)%nat) as [Hle | Hgt].
  - replace (length l - c)%nat with 0%nat by lia. rewrite drop_0.
    by replace (length l - 0)%nat with (length l) by lia.
  - rewrite (drop_app_le l [a]) by lia.
    rewrite (drop_app_le (drop _ l)) by (rewrite length_drop; lia).
    rewrite drop_drop. f_equal. f_equal. lia.
Qed.

(** One push keeps the buffer a window of everything pushed so far. *)
Lemma push_samples (b : body) (p : vec3) :
  (0 <= trajectory_max_points b < 2 ^ 64)%Z -> aligned b ->
  (length (samples b) <= capacity b)%nat ->
  samples (push b p) = window (capacity b) (samples b ++ [p]) /\
  aligned (push b p) /\
  trajectory_max_points (push b p) = trajectory_max_points b.
Proof.
  intros Hcap Hal Hlen. unfold push.
  destruct (add_trajectory_point_samples (move_to p b)) as [Hs Ha];
    [done | done |].
  split; [| split]; [| done | by rewrite add_trajectory_point_capacity].
  rewrite Hs. rewrite window_snoc_full by done.
  destruct p as [[px py] pz]. reflexivity.
Qed.

(** Any number of pushes. *)
Lemma push_all_samples (ps : list vec3) (b : body) :
  (0 <= trajectory_max_points b < 2 ^ 64)%Z -> aligned b ->
  (length (samples b) <= capacity b)%nat ->
  samples (foldl push b ps) = window (capacity b) (samples b ++ ps) /\
  aligned (foldl push b ps) /\
  trajectory_max_points (foldl push b ps) = trajectory_max_points b.
Proof.
  induction ps as [| p ps IH] using rev_ind; intros Hcap Hal Hlen.
  - cbn. rewrite app_nil_r. by rewrite window_small.
  - rewrite foldl_app. cbn [foldl].
    destruct (IH Hcap Hal Hlen) as (Hs & Ha & Hc).
    destruct (push_samples (foldl push b ps) p) as (Hs' & Ha' & Hc').
    { by rewrite Hc. }
    { done. }
    { rewrite Hs. unfold capacity. rewrite Hc. apply window_length. }
    split; [| split]; [| done | congruence].
    rewrite Hs', Hs. unfold capacity. rewrite Hc.
    rewrite window_window_snoc. by rewrite app_assoc.
Qed.

End TrajectoryFacts.

(** * The query surface *)

Section QueryFacts.

Import CelestialBody.

(** A loop of [push_back]s builds the concatenation of what each
    iteration pushes. *)
Lemma foldl_push_back {A B : Type} (f : B -> list A) (l : list B) (acc : list A) :
  foldl (fun acc b => acc ++ f b) acc l = acc ++ concat (f <$> l).
Proof.
  revert acc. induction l as [| b l IH]; intros acc; cbn.
  - by rewrite app_nil_r.
  - by rewrite IH, app_assoc.
Qed.

Lemma get_positions_spec (s : SolarSystem) :
  get_positions s = concat ((fun b => in_metres (position b)) <$> bodies s).
Proof.
  unfold get_positions.
  by rewrite (foldl_push_back (fun b => in_metres (position b))).
Qed.

Lemma get_velocities_spec (s : SolarSystem) :
  get_velocities s = concat ((fun b => in_metres (velocity b)) <$> bodies s).
Proof.
  unfold get_velocities.
  by rewrite (foldl_push_back (fun b => in_metres (velocity b))).
Qed.

Lemma samples_by_index (b : body) :
  aligned b ->
  samples b =
  (fun i => (vec_at (trajectory_x b) i, vec_at (trajectory_y b) i,
             vec_at (trajectory_z b) i)) <$> seq 0 (length (trajectory_x b)).
Proof.
  intros [Hy Hz]. apply list_eq. intros i.
  rewrite list_lookup_fmap. unfold samples. rewrite !lookup_zip_with.
  destruct (decide (i < length (trajectory_x b))%nat) as [Hlt | Hge].
  - rewrite lookup_seq_lt by done. unfold vec_at.
    destruct (lookup_lt_is_Some_2 (trajectory_x b) i) as [px Hpx]; [lia |].
    destruct (lookup_lt_is_Some_2 (trajectory_y b) i) as [py Hpy]; [lia |].
    destruct (lookup_lt_is_Some_2 (trajectory_z b) i) as [pz Hpz]; [lia |].
    rewrite Hpx, Hpy, Hpz. cbn. by rewrite Hpx, Hpy, Hpz.
  - rewrite lookup_seq_ge by lia.
    rewrite (proj2 (lookup_ge_None (trajectory_x b) i)) by lia. done.
Qed.

(** For a valid index, [get_trajectory] is the buffer of that body,
    oldest sample first, each coordinate divided by [AU]. *)
Lemma get_trajectory_spec (s : SolarSystem) (i : nat) (b : body) :
  bodies s !! i = Some b -> aligned b ->
  get_trajectory (Z.of_nat i) s = concat (in_AU <$> samples b).
Proof.
  intros Hb Hal. unfold get_trajectory.
  pose proof (lookup_lt_Some _ _ _ Hb) as Hlt.
  destruct (Z.ltb_spec (Z.of_nat i) 0); [lia |].
  destruct (Z.leb_spec (Z.of_nat (length (bodies s))) (Z.of_nat i)); [lia |].
  cbn [orb]. rewrite Nat2Z.id, Hb.
  rewrite (foldl_push_back
             (fun i => in_AU (vec_at (trajectory_x b) i,
                              vec_at (trajectory_y b) i,
                              vec_at (trajectory_z b) i))).
  rewrite (samples_by_index b Hal), <- list_fmap_compose. done.
Qed.

(** Outside [0, bodies.size()) the guard answers with the empty vector. *)
Lemma get_trajectory_out_of_range (s : SolarSystem) (body_index : Z) :
  (body_index < 0 \/ Z.of_nat (length (bodies s)) <= body_index)%Z ->
  get_trajectory body_index s = [].
Proof.
  intros H. unfold get_trajectory.
  destruct (Z.ltb_spec body_index 0); [done |].
  destruct (Z.leb_spec (Z.of_nat (length (bodies s))) body_index); [done |].
  lia.
Qed.

(** The triple of body [i] inside a flat vector of triples. *)
Lemma concat_triples_lookup {B : Type} (f : B -> vec3) (l : list B) (i : nat) (b : B) :
  l !! i = Some b ->
  take 3 (drop (3 * i) (concat ((fun b => in_metres (f b)) <$> l))) =
  in_metres (f b).
Proof.
  revert i. induction l as [| b0 l IH]; intros i Hi; [done |].
  destruct i as [| i].
  - injection Hi as ->. done.
  - cbn in Hi. replace (3 * S i)%nat with (3 + 3 * i)%nat by lia.
    cbn [fmap list_fmap concat]. unfold in_metres at 1.
    cbn [app]. rewrite <- drop_drop. cbn [drop]. rewrite drop_0.
    by apply IH.
Qed.

End QueryFacts.

(** * Diagnostics *)

Section EnergyFacts.

Import CelestialBody.
Local Open Scope float_scope.

Lemma foldl_bind {A B C : Type} (f : A -> C -> A) (g : B -> list C) (l : list B) (a : A) :
  foldl f a (l ≫= g) = foldl (fun a i => foldl f a (g i)) a l.
Proof.
  revert a. induction l as [| i l IH]; intros a; [done |].
  cbn. by rewrite foldl_app, IH.
Qed.

(** A loop over [0 .. size-1] that reads [v[i]] is a fold over [v]. *)
Lemma foldl_seq_lookup {A : Type} (f : A -> body -> A) (bs : list body) (a : A) :
  foldl (fun a i => f a (bs !!! i)) a (seq 0 (length bs)) = foldl f a bs.
Proof.
  revert a. induction bs as [| b bs IH] using rev_ind; intros a; [done |].
  rewrite length_app, Nat.add_1_r, seq_S, !foldl_app. cbn.
  rewrite lookup_total_app_r, Nat.sub_diag by done. cbn.
  f_equal. rewrite <- IH. apply foldl_ext_in.
  intros a' i Hi. apply elem_of_seq in Hi.
  rewrite lookup_total_app_l by lia. done.
Qed.

Lemma potential_body_term (bs : list body) (i j : nat) (p : float) :
  (i < length bs)%nat -> (j < length bs)%nat ->
  potential_body bs i j p = p + potential_term (bs !!! i) (bs !!! j).
Proof.
  intros Hi Hj. unfold potential_body.
  destruct (lookup_lt_is_Some_2 bs i Hi) as [bi Hbi].
  destruct (lookup_lt_is_Some_2 bs j Hj) as [bj Hbj].
  rewrite Hbi, Hbj.
  rewrite (list_lookup_total_correct _ _ _ Hbi).
  rewrite (list_lookup_total_correct _ _ _ Hbj).
  apply DblFacts.sub_add_opp.
Qed.

(** The outer loop keeps its two accumulators apart: the first collects
    kinetic terms, the second the potential terms of the pairs
    [(i, j)], [j > i]. *)
Lemma energy_loop (bs : list body) (idx : list nat) (acc : float * float) :
  (forall i, i ∈ idx -> (i < length bs)%nat) ->
  foldl (fun acc i => energy_body bs i acc) acc idx =
  (foldl (fun k i => k + kinetic_term (bs !!! i)) acc.1 idx,
   foldl (fun p i =>
            foldl (fun p ij => p + potential_term (bs !!! ij.1) (bs !!! ij.2))
                  p ((fun j => (i, j)) <$> seq (S i) (length bs - S i)))
         acc.2 idx).
Proof.
  revert acc. induction idx as [| i idx IH]; intros acc Hidx.
  - by destruct acc.
  - cbn [foldl]. rewrite IH by (intros; apply Hidx; by right).
    assert (Hi : (i < length bs)%nat) by (apply Hidx; by left).
    unfold energy_body.
    destruct (lookup_lt_is_Some_2 bs i Hi) as [bi Hbi]. rewrite Hbi.
    cbn [fst snd]. f_equal.
    + by rewrite (list_lookup_total_correct _ _ _ Hbi).
    + f_equal. rewrite foldl_fmap. cbn [fst snd].
      apply foldl_ext_in. intros p j Hj. apply elem_of_seq in Hj.
      apply potential_body_term; lia.
Qed.

Lemma calculate_total_energy_spec (s : SolarSystem) :
  calculate_total_energy s =
  kinetic_energy (bodies s) + potential_energy (bodies s).
Proof.
  unfold calculate_total_energy. rewrite energy_loop.
  - cbn [fst snd]. f_equal.
    + apply (foldl_seq_lookup (fun k b => k + kinetic_term b)).
    + unfold potential_energy, pairs. by rewrite foldl_bind.
  - intros i Hi. apply elem_of_seq in Hi. lia.
Qed.

Lemma elem_of_pairs (n i j : nat) :
  (i, j) ∈ pairs n <-> (i < j < n)%nat.
Proof.
  unfold pairs. rewrite list_elem_of_bind. split.
  - intros (i' & Hj & Hi'). apply list_elem_of_fmap in Hj.
    destruct Hj as (j' & Heq & Hj'). injection Heq as -> ->.
    apply elem_of_seq in Hj'. lia.
  - intros H. exists i. split.
    + apply list_elem_of_fmap. exists j. split; [done |].
      apply elem_of_seq. lia.
    + apply elem_of_seq. lia.
Qed.

Lemma NoDup_pairs (n : nat) : NoDup (pairs n).
Proof.
  unfold pairs. apply NoDup_bind.
  - intros i1 i2 p _ _ H1 H2.
    apply list_elem_of_fmap in H1. destruct H1 as (j1 & -> & _).
    apply list_elem_of_fmap in H2. destruct H2 as (j2 & Heq & _).
    by injection Heq.
  - intros i _. apply NoDup_fmap_2; [| apply NoDup_seq].
    intros j1 j2 Heq. by injection Heq.
  - apply NoDup_seq.
Qed.

End EnergyFacts.

(** * Coincident bodies *)

Section SingularityFacts.

Import CelestialBody.
Local Open Scope float_scope.

(** With every coordinate difference [+0] or NaN the scaled differences
    are NaN: [r_cubed] is zero or NaN, the factor an infinity or NaN. *)
Lemma degenerate_pull (c dx dy dz : float) :
  dx = 0 \/ dx = nan -> dy = 0 \/ dy = nan -> dz = 0 \/ dz = nan ->
  let r_sq := dx * dx + dy * dy + dz * dz in
  let factor := c / (r_sq * sqrt r_sq) in
  (factor * dx, factor * dy, factor * dz) = (nan, nan, nan).
Proof.
  intros [-> | ->] [-> | ->] [-> | ->]; cbv zeta;
    match goal with
    | |- context [c / ?R] =>
        let v := eval vm_compute in R in change R with v
    end;
    rewrite ?DblFacts.div_nan_r, ?DblFacts.mul_nan_l,
            ?DblFacts.mul_nan_r, ?DblFacts.div_zero_mul_zero;
    reflexivity.
Qed.

Lemma pull_coincident (bi bj : body) :
  position bi = position bj -> pull bi bj = (nan, nan, nan).
Proof.
  unfold position. intros H. injection H as Hx Hy Hz.
  unfold pull. rewrite Hx, Hy, Hz.
  apply degenerate_pull; apply DblFacts.sub_diag.
Qed.

Lemma vadd_nan_l (p : vec3) : vadd (nan, nan, nan) p = (nan, nan, nan).
Proof. unfold vadd. cbn. by rewrite !DblFacts.add_nan_l. Qed.

Lemma vadd_nan_r (a : vec3) : vadd a (nan, nan, nan) = (nan, nan, nan).
Proof. unfold vadd. cbn. by rewrite !DblFacts.add_nan_r. Qed.

Lemma sum_nan_absorbs (bs : list body) (bi : body) (js : list nat) :
  foldl (fun a j => match bs !! j with
                    | Some bj => vadd a (pull bi bj)
                    | None => a
                    end) (nan, nan, nan) js = (nan, nan, nan).
Proof.
  induction js as [| j js IH]; [done |]. cbn [foldl].
  destruct (bs !! j); [by rewrite vadd_nan_l |]; done.
Qed.

Lemma sum_hits_nan (bs : list body) (bi bj : body) (j : nat) (js : list nat) (a : vec3) :
  j ∈ js -> bs !! j = Some bj -> pull bi bj = (nan, nan, nan) ->
  foldl (fun a j => match bs !! j with
                    | Some bj => vadd a (pull bi bj)
                    | None => a
                    end) a js = (nan, nan, nan).
Proof.
  intros Hin Hj Hnan. revert a.
  induction Hin as [j js | j j' js Hin IH]; intros a; cbn [foldl].
  - rewrite Hj, Hnan, vadd_nan_r. apply sum_nan_absorbs.
  - apply IH; done.
Qed.

(** A body that shares its position with another one gets a NaN net
    acceleration. *)
Lemma net_acceleration_coincident (bs : list body) (i j : nat) (bi bj : body) :
  i <> j -> bs !! i = Some bi -> bs !! j = Some bj ->
  position bi = position bj ->
  net_acceleration bs i = (nan, nan, nan).
Proof.
  intros Hne Hi Hj Hpos. unfold net_acceleration. rewrite Hi.
  apply (sum_hits_nan bs bi bj j); [| done | by apply pull_coincident].
  unfold others. apply list_elem_of_filter. split; [congruence |].
  apply elem_of_seq. apply lookup_lt_Some in Hj. lia.
Qed.

End SingularityFacts.

(** * Determinism: the dynamics read the configuration only *)

Section DeterminismFacts.

Import CelestialBody.

Lemma same_dynamics_same_place (b1 b2 : body) :
  same_dynamics b1 b2 -> same_place b1 b2.
Proof. intros [(Hm & Hp & _) _]. by split. Qed.

Lemma same_motion_drift (dt : float) (b1 b2 : body) :
  same_motion b1 b2 ->
  same_dynamics (update_position dt (store_old_acceleration b1))
                (update_position dt (store_old_acceleration b2)).
Proof.
  intros (Hm & Hp & Hv & Ha). unfold position, velocity, acceleration in *.
  injection Hp as Hx Hy Hz. injection Hv as Hvx Hvy Hvz.
  injection Ha as Hax Hay Haz.
  unfold same_dynamics, same_motion, position, velocity, acceleration,
    acceleration_old. cbn.
  rewrite Hm, Hx, Hy, Hz, Hvx, Hvy, Hvz, Hax, Hay, Haz. done.
Qed.

Lemma same_dynamics_set_acceleration (a : vec3) (b1 b2 : body) :
  same_dynamics b1 b2 ->
  same_dynamics (set_acceleration a b1) (set_acceleration a b2).
Proof.
  intros [(Hm & Hp & Hv & Ha) Ho].
  unfold position, velocity, acceleration, acceleration_old in *.
  injection Hp as Hx Hy Hz. injection Hv as Hvx Hvy Hvz.
  injection Ho as Hox Hoy Hoz.
  unfold same_dynamics, same_motion, position, velocity, acceleration,
    acceleration_old. cbn.
  rewrite Hm, Hx, Hy, Hz, Hvx, Hvy, Hvz, Hox, Hoy, Hoz. done.
Qed.

Lemma same_dynamics_kick (dt : float) (b1 b2 : body) :
  same_dynamics b1 b2 ->
  same_motion (update_velocity dt b1) (update_velocity dt b2).
Proof.
  intros [(Hm & Hp & Hv & Ha) Ho].
  unfold position, velocity, acceleration, acceleration_old in *.
  injection Hp as Hx Hy Hz. injection Hv as Hvx Hvy Hvz.
  injection Ha as Hax Hay Haz. injection Ho as Hox Hoy Hoz.
  unfold same_motion, position, velocity, acceleration. cbn.
  rewrite Hm, Hx, Hy, Hz, Hvx, Hvy, Hvz, Hax, Hay, Haz, Hox, Hoy, Hoz.
  done.
Qed.

Lemma with_net_acceleration_same_dynamics (bs1 bs2 : list body) :
  Forall2 same_dynamics bs1 bs2 ->
  Forall2 same_dynamics (with_net_acceleration bs1) (with_net_acceleration bs2).
Proof.
  intros H.
  assert (Hplace : Forall2 same_place bs1 bs2).
  { eapply Forall2_impl; [exact H |]. apply same_dynamics_same_place. }
  apply Forall2_same_length_lookup. split.
  - unfold with_net_acceleration. rewrite !length_imap.
    by eapply Forall2_length.
  - intros i b1' b2' H1 H2. unfold with_net_acceleration in H1, H2.
    rewrite list_lookup_imap in H1. rewrite list_lookup_imap in H2.
    destruct (bs1 !! i) as [b1 |] eqn:Hb1; [| done].
    destruct (bs2 !! i) as [b2 |] eqn:Hb2; [| done].
    cbn in H1, H2. injection H1 as <-. injection H2 as <-.
    rewrite (net_acceleration_same_place _ _ i Hplace).
    apply same_dynamics_set_acceleration.
    by eapply Forall2_lookup_lr.
Qed.

(** One step keeps two runs with the same configuration together. *)
Lemma step_same_motion (dt : float) (s1 s2 : SolarSystem) :
  Forall2 same_motion (bodies s1) (bodies s2) ->
  Forall2 same_motion (bodies (step dt s1)) (bodies (step dt s2)).
Proof.
  intros H. rewrite !step_bodies. apply Forall2_fmap.
  eapply Forall2_impl; [| apply same_dynamics_kick].
  apply with_net_acceleration_same_dynamics.
  unfold drifted. rewrite <- !list_fmap_compose. apply Forall2_fmap.
  eapply Forall2_impl; [exact H |]. apply same_motion_drift.
Qed.

Lemma run_steps_same_motion (dt : float) (n : nat) (s1 s2 : SolarSystem) :
  Forall2 same_motion (bodies s1) (bodies s2) ->
  Forall2 same_motion (bodies (run_steps dt n s1)) (bodies (run_steps dt n s2)).
Proof.
  intros H. induction n as [| n IH]; [done |].
  cbn. by apply step_same_motion.
Qed.

Lemma fmap_related {A B : Type} (R : A -> A -> Prop) (f : A -> B) (l1 l2 : list A) :
  (forall a1 a2, R a1 a2 -> f a1 = f a2) ->
  Forall2 R l1 l2 -> f <$> l1 = f <$> l2.
Proof.
  intros Hf H. induction H as [| a1 a2 l1 l2 Ha _ IH]; [done |].
  cbn. by rewrite (Hf _ _ Ha), IH.
Qed.

Lemma same_motion_queries (s1 s2 : SolarSystem) :
  Forall2 same_motion (bodies s1) (bodies s2) ->
  get_positions s1 = get_positions s2 /\
  get_velocities s1 = get_velocities s2.
Proof.
  intros H. rewrite !get_positions_spec, !get_velocities_spec. split.
  - f_equal. eapply fmap_related; [| exact H].
    intros b1 b2 (_ & -> & _). done.
  - f_equal. eapply fmap_related; [| exact H].
    intros b1 b2 (_ & _ & -> & _). done.
Qed.

Lemma filter_all {A : Type} (P : A -> Prop) `{!forall a, Decision (P a)} (l : list A) :
  Forall P l -> filter P l = l.
Proof.
  induction 1 as [| a l Ha _ IH]; [done |].
  by rewrite filter_cons_True, IH.
Qed.

Lemma others_split (i n : nat) :
  (i < n)%nat -> others i n = seq 0 i ++ seq (S i) (n - S i).
Proof.
  intros Hi. unfold others.
  replace n with (i + (1 + (n - S i)))%nat at 1 by lia.
  rewrite !seq_app, !filter_app. cbn [seq Nat.add].
  rewrite Nat.add_1_r.
  rewrite filter_cons_False by (intros H; by apply H).
  rewrite filter_nil. cbn [app].
  f_equal.
  - apply filter_all. apply Forall_forall.
    intros j Hj. apply elem_of_seq in Hj. lia.
  - apply filter_all. apply Forall_forall.
    intros j Hj. apply elem_of_seq in Hj. lia.
Qed.

End DeterminismFacts.

(** * The batch run *)

Section SimulateFacts.

Import CelestialBody.
Local Open Scope float_scope.

Lemma graft_self (b : body) : graft b b = b.
Proof. by destruct b. Qed.

Lemma run_steps_S (dt : float) (k : nat) (s : SolarSystem) :
  run_steps dt (S k) s = step dt (run_steps dt k s).
Proof. reflexivity. Qed.

Lemma run_steps_length (dt : float) (k : nat) (s : SolarSystem) :
  length (bodies (run_steps dt k s)) = length (bodies s).
Proof.
  induction k as [| k IH]; [done |].
  by rewrite run_steps_S, step_length.
Qed.

Lemma run_steps_simulation_time (dt : float) (k : nat) (s : SolarSystem) :
  simulation_time (run_steps dt k s) =
  Nat.iter k (fun t => t + dt) (simulation_time s).
Proof.
  induction k as [| k IH]; [done |].
  rewrite run_steps_S, step_simulation_time, IH. done.
Qed.

Lemma run_steps_step_count (dt : float) (k : nat) (s : SolarSystem) :
  (INT_MIN <= step_count s)%Z -> (step_count s + Z.of_nat k <= INT_MAX)%Z ->
  step_count (run_steps dt k s) = (step_count s + Z.of_nat k)%Z.
Proof.
  intros Hlo. induction k as [| k IH]; intros Hhi.
  - cbn. lia.
  - rewrite run_steps_S, step_step_count; rewrite IH; lia.
Qed.

Lemma run_steps_energy (dt : float) (k : nat) (s : SolarSystem) :
  total_energy (run_steps dt k s) = total_energy s /\
  initial_energy (run_steps dt k s) = initial_energy s.
Proof.
  induction k as [| k [IH1 IH2]]; [done |].
  by rewrite run_steps_S, step_total_energy, step_initial_energy.
Qed.

Lemma push_capacity (b : body) (p : vec3) :
  trajectory_max_points (push b p) = trajectory_max_points b.
Proof. unfold push. by rewrite add_trajectory_point_capacity. Qed.

Lemma foldl_push_capacity (ps : list vec3) (b : body) :
  trajectory_max_points (foldl push b ps) = trajectory_max_points b.
Proof.
  revert b. induction ps as [| p ps IH]; intros b; [done |].
  cbn [foldl]. by rewrite IH, push_capacity.
Qed.

(** Recording on a body that carries another body's buffer is a push
    into that buffer. *)
Lemma add_trajectory_point_graft_push (t p : body) :
  trajectory_max_points t = trajectory_max_points p ->
  add_trajectory_point (graft t p) = graft (push t (position p)) p.
Proof.
  intros Hcap. unfold push, add_trajectory_point. cbn. rewrite Hcap.
  destruct (_ <? _)%Z; reflexivity.
Qed.

Lemma recording_indices_S (k : nat) :
  recording_indices (S k) =
  recording_indices k ++ (if decide (k mod 10 = 0)%nat then [k] else []).
Proof.
  unfold recording_indices. rewrite seq_S, filter_app. cbn [Nat.add].
  reflexivity.
Qed.

Lemma recording_test (k : nat) :
  (Z.rem (Z.of_nat k) 10 =? 0)%Z = bool_decide (k mod 10 = 0)%nat.
Proof.
  rewrite Z.rem_mod_nonneg by lia.
  change 10%Z with (Z.of_nat 10). rewrite <- Nat2Z.inj_mod.
  destruct (Z.eqb_spec (Z.of_nat (k mod 10)) 0) as [H | H].
  - symmetry. apply bool_decide_eq_true. lia.
  - symmetry. apply bool_decide_eq_false. lia.
Qed.

Lemma length_recording_indices (k : nat) :
  length (recording_indices k) = ((k + 9) / 10)%nat.
Proof.
  induction k as [| k IH]; [done |].
  rewrite recording_indices_S, length_app, IH.
  destruct (decide (k mod 10 = 0)%nat); cbn [length];
    zify; Z.to_euclidean_division_equations; lia.
Qed.

Lemma simulate_prefix_S (dt : float) (k : nat) (s : SolarSystem) :
  simulate_prefix dt (S k) s =
  simulate_body dt (Z.of_nat k) (simulate_prefix dt k s).
Proof.
  unfold simulate_prefix. rewrite seqZ_S, foldl_app. cbn [foldl].
  by rewrite Z.add_0_l.
Qed.

Lemma simulate_body_bodies (dt : float) (k : nat) (s : SolarSystem) :
  bodies (simulate_body dt (Z.of_nat k) s) =
  if decide (k mod 10 = 0)%nat
  then add_trajectory_point <$> bodies (step dt s)
  else bodies (step dt s).
Proof.
  unfold simulate_body. rewrite recording_test.
  destruct (decide (k mod 10 = 0)%nat).
  - by rewrite bool_decide_eq_true_2.
  - by rewrite bool_decide_eq_false_2.
Qed.

Lemma simulate_body_scalars (dt : float) (i : Z) (s : SolarSystem) :
  simulation_time (simulate_body dt i s) = simulation_time (step dt s) /\
  step_count (simulate_body dt i s) = step_count (step dt s) /\
  total_energy (simulate_body dt i s) = total_energy s /\
  initial_energy (simulate_body dt i s) = initial_energy s.
Proof. unfold simulate_body. by destruct (_ =? _)%Z. Qed.

(** A step moves a body the same way whatever buffer it carries. *)
Lemma step_lookup_graft (dt : float) (s1 s2 : SolarSystem) (i : nat) (t p : body) :
  Forall2 same_place (drifted dt (bodies s1)) (drifted dt (bodies s2)) ->
  bodies s1 !! i = Some (graft t p) -> bodies s2 !! i = Some p ->
  exists p', bodies (step dt s2) !! i = Some p' /\
             trajectory_max_points p' = trajectory_max_points p /\
             bodies (step dt s1) !! i = Some (graft t p').
Proof.
  intros Hplace H1 H2.
  rewrite (step_lookup _ _ _ _ H1), (step_lookup _ _ _ _ H2).
  rewrite (net_acceleration_same_place _ _ i Hplace).
  eexists. split; [reflexivity |]. split; reflexivity.
Qed.

(** The loop of [simulate] after [k] iterations: the clock, the counter
    and the motion of every body are those of [k] plain steps, and the
    buffer of body [i] has received the recorded positions, in order. *)
Lemma simulate_prefix_spec (dt : float) (s : SolarSystem) (k : nat) :
  simulation_time (simulate_prefix dt k s) = simulation_time (run_steps dt k s) /\
  step_count (simulate_prefix dt k s) = step_count (run_steps dt k s) /\
  total_energy (simulate_prefix dt k s) = total_energy s /\
  initial_energy (simulate_prefix dt k s) = initial_energy s /\
  length (bodies (simulate_prefix dt k s)) = length (bodies s) /\
  forall i b, bodies s !! i = Some b ->
    exists p, bodies (run_steps dt k s) !! i = Some p /\
              trajectory_max_points p = trajectory_max_points b /\
              bodies (simulate_prefix dt k s) !! i =
              Some (graft (foldl push b (recorded dt s i k)) p).
Proof.
  induction k as [| k (IHt & IHc & IHe & IHi & IHl & IHb)].
  - repeat split. intros i b Hb. exists b. repeat split; [done |].
    cbn. by rewrite graft_self.
  - rewrite simulate_prefix_S, run_steps_S.
    set (Sk := simulate_prefix dt k s) in *.
    set (Pk := run_steps dt k s) in *.
    destruct (simulate_body_scalars dt (Z.of_nat k) Sk) as (Ht & Hc & He & Hi).
    assert (Hplace : Forall2 same_place (drifted dt (bodies Sk))
                                        (drifted dt (bodies Pk))).
    { apply Forall2_same_length_lookup. split.
      - unfold drifted, Pk. by rewrite !length_fmap, run_steps_length.
      - intros i b1 b2 H1 H2. unfold drifted in H1, H2.
        rewrite !list_lookup_fmap in H1. rewrite !list_lookup_fmap in H2.
        destruct (bodies s !! i) as [b |] eqn:Hb.
        + destruct (IHb i b Hb) as (p & Hp & _ & HS).
          rewrite HS in H1. rewrite Hp in H2.
          injection H1 as <-. injection H2 as <-. done.
        + apply lookup_ge_None in Hb.
          destruct (bodies Sk !! i) eqn:HS; [| done].
          apply lookup_lt_Some in HS. lia. }
    split; [| split; [| split; [| split; [| split]]]].
    + by rewrite Ht, !step_simulation_time, IHt.
    + by rewrite Hc, !step_step_count_wrap, IHc.
    + by rewrite He.
    + by rewrite Hi.
    + rewrite simulate_body_bodies.
      destruct (decide _); rewrite ?length_fmap, step_length; done.
    + intros i b Hb. destruct (IHb i b Hb) as (p & Hp & Hcap & HS).
      destruct (step_lookup_graft dt Sk Pk i _ p Hplace HS Hp)
        as (p' & Hp' & Hcap' & HS').
      exists p'. split; [done |]. split; [congruence |].
      rewrite simulate_body_bodies. unfold recorded.
      rewrite recording_indices_S, fmap_app, foldl_app.
      destruct (decide (k mod 10 = 0)%nat).
      * rewrite list_lookup_fmap, HS'. cbn [fmap option_fmap option_map].
        rewrite add_trajectory_point_graft_push
          by (rewrite foldl_push_capacity; congruence).
        cbn [fmap list_fmap foldl]. rewrite run_steps_S.
        fold Pk. by rewrite (list_lookup_total_correct _ _ _ Hp').
      * by rewrite HS'.
Qed.

Lemma simulate_unfold (duration dt : float) (s : SolarSystem) :
  let k := Z.to_nat (double_to_int (duration / dt)) in
  simulate duration dt s =
  set_total_energy (calculate_total_energy (simulate_prefix dt k s))
                   (simulate_prefix dt k s).
Proof.
  cbv zeta. unfold simulate, simulate_prefix, seqZ.
  by rewrite Nat2Z.id.
Qed.

(** For a quotient between zero and [INT_MAX] the conversion to [int]
    is the floor. *)
Lemma double_floor_to_int (d : float) (n : Z) :
  double_floor d = Some n -> (0 <= n <= INT_MAX)%Z -> double_to_int d = n.
Proof.
  unfold double_floor, double_to_int. intros Hfl Hn.
  assert (Htr : SF_trunc (Prim2SF d) = Some n).
  { destruct (Prim2SF d) as [sg | sg | | sg m e]; try done.
    cbn in Hfl |- *. destruct sg; [| done].
    injection Hfl as Hfl. exfalso.
    destruct (Z.leb_spec 0 e).
    - assert (0 < 2 ^ e)%Z by (by apply Z.pow_pos_nonneg). nia.
    - assert (0 < 2 ^ (- e))%Z by (apply Z.pow_pos_nonneg; lia).
      assert (Z.neg m / 2 ^ (- e) < 0)%Z; [| lia].
      apply Z.div_lt_upper_bound; lia. }
  rewrite Htr.
  destruct (Z.leb_spec INT_MIN n); [| unfold INT_MIN in *; lia].
  destruct (Z.leb_spec n INT_MAX); [done | lia].
Qed.

(** The floor of a double is never above its truncation, and a
    negative floor has a truncation that is not positive. *)
Lemma SF_floor_trunc (f : spec_float) (n : Z) :
  SF_floor f = Some n -> (n < 0)%Z ->
  exists t, SF_trunc f = Some t /\ (n <= t <= 0)%Z.
Proof.
  destruct f as [sg | sg | | sg m e]; try done; cbn; intros Hfl Hn.
  - injection Hfl as <-. lia.
  - injection Hfl as <-. eexists. split; [reflexivity |].
    destruct sg.
    + destruct (Z.leb_spec 0 e).
      * assert (0 < 2 ^ e)%Z by (by apply Z.pow_pos_nonneg). nia.
      * assert (Hpow : (0 < 2 ^ (- e))%Z) by (apply Z.pow_pos_nonneg; lia).
        pose proof (Z.div_mod (Z.neg m) (2 ^ (- e))) as H1.
        pose proof (Z.div_mod (Z.pos m) (2 ^ (- e))) as H2.
        pose proof (Z.mod_pos_bound (Z.neg m) _ Hpow) as H3.
        pose proof (Z.mod_pos_bound (Z.pos m) _ Hpow) as H4.
        assert (0 <= Z.pos m / 2 ^ (- e))%Z by (apply Z.div_pos; lia).
        nia.
    + exfalso. destruct (Z.leb_spec 0 e).
      * assert (0 < 2 ^ e)%Z by (by apply Z.pow_pos_nonneg). nia.
      * assert (0 <= Z.pos m / 2 ^ (- e))%Z; [| lia].
        apply Z.div_pos; [lia |]. apply Z.pow_pos_nonneg; lia.
Qed.

(** For a floor within [int] the loop of [simulate] runs [max 0 n]
    times. *)
Lemma double_floor_iterations (d : float) (n : Z) :
  double_floor d = Some n -> (INT_MIN <= n <= INT_MAX)%Z ->
  Z.to_nat (double_to_int d) = Z.to_nat n.
Proof.
  intros Hfl Hn. destruct (Z.lt_ge_cases n 0) as [Hneg | Hpos].
  - destruct (SF_floor_trunc _ _ Hfl Hneg) as (t & Ht & Hrange).
    unfold double_to_int. rewrite Ht.
    destruct (Z.leb_spec INT_MIN t); [| lia].
    destruct (Z.leb_spec t INT_MAX); [cbn [andb]; lia |].
    unfold INT_MAX in *. lia.
  - rewrite (double_floor_to_int d n Hfl); [done | lia].
Qed.

(** With no iteration [simulate] only refreshes the cached energy. *)
Lemma simulate_no_iteration (duration dt : float) (s : SolarSystem) :
  Z.to_nat (double_to_int (duration / dt)) = 0%nat ->
  simulate duration dt s = set_total_energy (calculate_total_energy s) s.
Proof.
  intros H0. pose proof (simulate_unfold duration dt s) as Hsim.
  cbv zeta in Hsim. by rewrite H0 in Hsim.
Qed.

End SimulateFacts.

(** * The specification, claim by claim *)

Section Claims.

Import CelestialBody.
Local Open Scope float_scope.

(** C1.  One call of [step(dt)], from any state (a Ready state in
    particular) and for any [dt], leaves in every slot [i] a body [b']
    such that: (1) its saved acceleration is the acceleration the body
    had before the call; (2) its position is the old position plus
    [velocity*dt + 0.5*acceleration*dt*dt], with the velocity and the
    acceleration from before the call; (3) its acceleration is the net
    acceleration evaluated on the positions of all bodies after the
    position update; (4) its velocity is the old velocity plus
    [0.5*(previous acceleration + new acceleration)*dt]; mass and
    trajectory buffer are untouched.  The clock has [dt] added and the
    step counter is one higher (the counter being below [INT_MAX]). *)
Theorem step_velocity_verlet (s : SolarSystem) (dt : float) (i : nat) (b : body) :
  (INT_MIN <= step_count s < INT_MAX)%Z ->
  bodies s !! i = Some b ->
  exists b',
    bodies (step dt s) !! i = Some b' /\
    acceleration_old b' = acceleration b /\
    position b' = (x b + (vx b * dt + Dbl.half * ax b * dt * dt),
                   y b + (vy b * dt + Dbl.half * ay b * dt * dt),
                   z b + (vz b * dt + Dbl.half * az b * dt * dt)) /\
    acceleration b' = net_acceleration (bodies (step dt s)) i /\
    velocity b' = (vx b + Dbl.half * (ax b + ax b') * dt,
                   vy b + Dbl.half * (ay b + ay b') * dt,
                   vz b + Dbl.half * (az b + az b') * dt) /\
    mass b' = mass b /\
    graft b b' = b' /\
    simulation_time (step dt s) = simulation_time s + dt /\
    step_count (step dt s) = (step_count s + 1)%Z.
Proof.
  intros Hcount Hb.
  pose proof (step_lookup dt s i b Hb) as Hb'.
  pose proof (step_Ready dt s i _ Hb') as Hready.
  destruct (verlet_body_fields (net_acceleration (drifted dt (bodies s)) i) dt b)
    as (Hold & Hpos & _ & Hvel & Hmass & Hgraft).
  eexists. split; [exact Hb' |].
  split; [exact Hold |]. split; [exact Hpos |]. split; [exact Hready |].
  split; [exact Hvel |]. split; [exact Hmass |]. split; [exact Hgraft |].
  split; [apply step_simulation_time |]. by apply step_step_count.
Qed.

Lemma step_velocity_verlet_witness :
  (INT_MIN <= step_count Sample.inner_system < INT_MAX)%Z /\
  exists b',
    bodies (step 3600 Sample.inner_system) !! 3%nat = Some b' /\
    acceleration_old b' = acceleration (Sample.slot Sample.inner_system 3) /\
    step_count (step 3600 Sample.inner_system) = 1%Z.
Proof.
  split; [by vm_compute |].
  destruct (step_velocity_verlet Sample.inner_system 3600 3
              (Sample.slot Sample.inner_system 3))
    as (b' & H1 & H2 & _ & _ & _ & _ & _ & _ & H9).
  - by vm_compute.
  - vm_compute. reflexivity.
  - exists b'. split; [exact H1 |]. split; [exact H2 |]. exact H9.
Defined.

(** C2, as the code has it.  The force evaluator has no minimum
    separation and signals nothing: whenever body [i] shares its
    position with another body [j], [compute_acceleration(i)] and
    [compute_all_accelerations()] run to the end and leave a NaN in all
    three acceleration components of body [i]. *)
Theorem coincident_bodies_get_nan (bs : list body) (i j : nat) (bi bj : body) :
  i <> j -> bs !! i = Some bi -> bs !! j = Some bj ->
  position bi = position bj ->
  (exists b', compute_acceleration i bs !! i = Some b' /\
              acceleration b' = (nan, nan, nan)) /\
  (exists b', compute_all_accelerations bs !! i = Some b' /\
              acceleration b' = (nan, nan, nan)).
Proof.
  intros Hne Hi Hj Hpos.
  pose proof (net_acceleration_coincident bs i j bi bj Hne Hi Hj Hpos) as Hnan.
  split.
  - rewrite (compute_acceleration_spec bs i bi Hi), Hnan.
    rewrite list_lookup_insert_eq by (by eapply lookup_lt_Some).
    eexists. split; [reflexivity |]. reflexivity.
  - rewrite compute_all_accelerations_spec.
    rewrite (with_net_acceleration_lookup bs i bi Hi), Hnan.
    eexists. split; [reflexivity |]. reflexivity.
Qed.

Lemma coincident_bodies_get_nan_witness :
  position Sample.sun = position (set_mass 1.0e30 Sample.sun) /\
  exists b', compute_all_accelerations Sample.twin_suns !! 0%nat = Some b' /\
             acceleration b' = (nan, nan, nan).
Proof.
  split; [reflexivity |].
  apply (coincident_bodies_get_nan Sample.twin_suns 0 1
           Sample.sun (set_mass 1.0e30 Sample.sun));
    [lia | reflexivity | reflexivity | reflexivity].
Defined.

(** C2, refuted as stated.  Two bodies at distance zero, below every
    positive epsilon: the evaluator signals nothing and the
    acceleration of both is not finite. *)
Lemma coincident_bodies_not_detected :
  distance Sample.sun (set_mass 1.0e30 Sample.sun) = 0 /\
  acceleration <$> compute_all_accelerations Sample.twin_suns =
    [(nan, nan, nan); (nan, nan, nan)] /\
  (fun b => Dbl.is_finite (ax b)) <$> compute_all_accelerations Sample.twin_suns =
    [false; false].
Proof. vm_compute. repeat split. Qed.

(** C3.  [calculate_total_energy()] returns the sum over the bodies of
    [0.5 * mass * |velocity|^2] plus the sum over the unordered pairs of
    distinct bodies of [- GRAV * mass(i) * mass(j) / r(i,j)]; every pair
    [i < j] occurs in that sum exactly once.  The function reads the
    state and writes no member: assigning its result, as [simulate] and
    the setup do, leaves the bodies as they were. *)
Theorem calculate_total_energy_sums (s : SolarSystem) :
  calculate_total_energy s =
    kinetic_energy (bodies s) + potential_energy (bodies s) /\
  NoDup (pairs (length (bodies s))) /\
  (forall i j, (i, j) ∈ pairs (length (bodies s)) <->
               (i < j < length (bodies s))%nat) /\
  bodies (set_total_energy (calculate_total_energy s) s) = bodies s.
Proof.
  split; [apply calculate_total_energy_spec |].
  split; [apply NoDup_pairs |].
  split; [intros i j; apply elem_of_pairs | reflexivity].
Qed.

(** C4, as the code has it.  When the double [duration / dt] has a
    floor [n] within [int], and the step counter [c] satisfies
    [INT_MIN <= c] and [c + max 0 n <= INT_MAX], [simulate(duration, dt)]
    calls [step(dt)] exactly [max 0 n] times: the counter is [max 0 n]
    higher and the clock has had [dt] added [max 0 n] times.  For
    [n <= 0] (a negative quotient in particular) no step is taken: the
    call only refreshes the cached total energy.  The stride is the
    constant ten: body [i] ends as it is after [max 0 n] plain steps,
    with a buffer that has received, in order, its position after step
    [j + 1] for every loop index [j < n] that is a multiple of ten,
    [(max 0 n + 9) / 10] pushes in all.  The cached total energy is
    recomputed at the end. *)
Theorem simulate_steps_and_samples (s : SolarSystem) (duration dt : float) (n : Z) (i : nat) (b : body) :
  double_floor (duration / dt) = Some n ->
  (INT_MIN <= n <= INT_MAX)%Z ->
  (INT_MIN <= step_count s)%Z -> (step_count s + Z.max 0 n <= INT_MAX)%Z ->
  bodies s !! i = Some b ->
  step_count (simulate duration dt s) = (step_count s + Z.max 0 n)%Z /\
  simulation_time (simulate duration dt s) =
    Nat.iter (Z.to_nat n) (fun t => t + dt) (simulation_time s) /\
  (exists p, bodies (run_steps dt (Z.to_nat n) s) !! i = Some p /\
             bodies (simulate duration dt s) !! i =
             Some (graft (foldl push b (recorded dt s i (Z.to_nat n))) p)) /\
  length (recorded dt s i (Z.to_nat n)) = ((Z.to_nat n + 9) / 10)%nat /\
  total_energy (simulate duration dt s) =
    calculate_total_energy (simulate duration dt s) /\
  ((n <= 0)%Z ->
   simulate duration dt s = set_total_energy (calculate_total_energy s) s).
Proof.
  intros Hfloor Hn Hc0 Hc Hb.
  pose proof (double_floor_iterations _ _ Hfloor Hn) as Hiter.
  pose proof (simulate_unfold duration dt s) as Hsim. cbv zeta in Hsim.
  rewrite Hiter in Hsim.
  destruct (simulate_prefix_spec dt s (Z.to_nat n))
    as (Ht & Hcnt & _ & _ & _ & Hbodies).
  destruct (Hbodies i b Hb) as (p & Hp & _ & HS).
  split; [| split; [| split; [| split; [| split]]]].
  - rewrite Hsim.
    change (step_count (simulate_prefix dt (Z.to_nat n) s) =
            (step_count s + Z.max 0 n)%Z).
    rewrite Hcnt, run_steps_step_count; lia.
  - rewrite Hsim.
    change (simulation_time (simulate_prefix dt (Z.to_nat n) s) =
            Nat.iter (Z.to_nat n) (fun t => t + dt) (simulation_time s)).
    by rewrite Ht, run_steps_simulation_time.
  - exists p. split; [done |]. rewrite Hsim. exact HS.
  - unfold recorded. by rewrite length_fmap, length_recording_indices.
  - rewrite Hsim. reflexivity.
  - intros Hneg. apply simulate_no_iteration. rewrite Hiter. lia.
Qed.

Lemma simulate_steps_and_samples_witness :
  (double_floor (72000 / 3600) = Some 20%Z /\
   step_count (simulate 72000 3600 Sample.inner_system) = 20%Z /\
   length (recorded 3600 Sample.inner_system 3 20) = 2%nat) /\
  (double_floor (-1 / 1) = Some (-1)%Z /\
   simulate (-1) 1 Sample.inner_system =
   set_total_energy (calculate_total_energy Sample.inner_system)
                    Sample.inner_system).
Proof.
  split.
  - split; [reflexivity |].
    destruct (simulate_steps_and_samples Sample.inner_system 72000 3600 20 3
                (Sample.slot Sample.inner_system 3))
      as (H1 & _ & _ & H4 & _).
    + reflexivity.
    + by vm_compute.
    + by vm_compute.
    + by vm_compute.
    + vm_compute. reflexivity.
    + split; [exact H1 | exact H4].
  - split; [reflexivity |].
    destruct (simulate_steps_and_samples Sample.inner_system (-1) 1 (-1) 3
                (Sample.slot Sample.inner_system 3))
      as (_ & _ & _ & _ & _ & H6).
    + reflexivity.
    + by vm_compute.
    + by vm_compute.
    + by vm_compute.
    + vm_compute. reflexivity.
    + apply H6. lia.
Defined.

(** C4, refuted as stated.  For a negative duration the floor of
    [duration / dt] is negative and no step is taken; twenty steps put
    two samples, not a number a caller chose, in every buffer; and ten
    steps of [0.1] do not advance the clock by [10 * 0.1]. *)
Lemma simulate_not_as_claimed :
  double_floor (-1 / 1) = Some (-1)%Z /\
  step_count (simulate (-1) 1 Sample.inner_system) =
    step_count Sample.inner_system /\
  step_count (simulate 72000 3600 Sample.inner_system) = 20%Z /\
  (fun b => length (samples b)) <$>
    bodies (simulate 72000 3600 Sample.inner_system) = [2; 2; 2; 2]%nat /\
  double_floor (1 / 0.1) = Some 10%Z /\
  simulation_time Sample.inner_system = 0 /\
  (simulation_time (simulate 1 0.1 Sample.inner_system) =? 10 * 0.1) = false.
Proof. vm_compute. repeat split. Qed.

(** C5.  A body with a capacity between zero and [INT_MAX], whose
    buffer is within the capacity, keeps it so under any sequence of
    pushes: the buffer never holds more than [capacity] samples, it
    holds exactly the last [capacity] of the samples it had and the ones
    pushed, oldest first, and the capacity does not change.
    [get_trajectory] returns these samples in that order (in AU); it is
    a function of the state and changes nothing. *)
Theorem trajectory_buffer_window (b0 : body) (ps : list vec3) (s : SolarSystem) (i : nat) :
  (0 <= trajectory_max_points b0 <= INT_MAX)%Z ->
  aligned b0 -> (length (samples b0) <= capacity b0)%nat ->
  bodies s !! i = Some (foldl push b0 ps) ->
  (length (samples (foldl push b0 ps)) <= capacity b0)%nat /\
  samples (foldl push b0 ps) = window (capacity b0) (samples b0 ++ ps) /\
  capacity (foldl push b0 ps) = capacity b0 /\
  get_trajectory (Z.of_nat i) s =
    concat (in_AU <$> window (capacity b0) (samples b0 ++ ps)).
Proof.
  intros Hcap Hal Hlen Hb.
  destruct (push_all_samples ps b0) as (Hs & Ha & Hc); [| done | done |].
  { unfold INT_MAX in Hcap. lia. }
  split; [rewrite Hs; apply window_length |].
  split; [exact Hs |].
  split; [unfold capacity; by rewrite Hc |].
  by rewrite (get_trajectory_spec s i _ Hb Ha), Hs.
Qed.

Lemma trajectory_buffer_window_witness :
  (length (samples (foldl push Sample.sun Sample.twelve_positions)) <= 10)%nat /\
  samples (foldl push Sample.sun Sample.twelve_positions) =
    drop 2 Sample.twelve_positions.
Proof.
  destruct (trajectory_buffer_window Sample.sun Sample.twelve_positions
              Sample.sun_tracked 0) as (H1 & H2 & _ & _).
  - by vm_compute.
  - split; reflexivity.
  - vm_compute. lia.
  - reflexivity.
  - split; [exact H1 | exact H2].
Defined.

(** C6, as the code has it.  [step(dt)] does not look at the sign of
    [dt]: for [dt <= 0] it runs the same four phases as for any other
    [dt], adds [dt] to the clock and increments the step counter (the
    counter being below [INT_MAX]); nothing is refused. *)
Theorem step_accepts_nonpositive_dt (s : SolarSystem) (dt : float) :
  (dt <=? 0) = true ->
  (INT_MIN <= step_count s < INT_MAX)%Z ->
  bodies (step dt s) =
    update_velocity dt <$> with_net_acceleration (drifted dt (bodies s)) /\
  simulation_time (step dt s) = simulation_time s + dt /\
  step_count (step dt s) = (step_count s + 1)%Z.
Proof.
  intros _ Hcount. split; [apply step_bodies |].
  split; [apply step_simulation_time | by apply step_step_count].
Qed.

Lemma step_accepts_nonpositive_dt_witness :
  (-1 <=? 0) = true /\
  simulation_time (step (-1) Sample.inner_system) =
    simulation_time Sample.inner_system + -1 /\
  step_count (step (-1) Sample.inner_system) =
    (step_count Sample.inner_system + 1)%Z.
Proof.
  split; [reflexivity |].
  apply (step_accepts_nonpositive_dt Sample.inner_system (-1)).
  - reflexivity.
  - by vm_compute.
Defined.

(** C6, refuted as stated.  With [dt = -1] the call goes through: the
    counter goes from 0 to 1, the clock from 0 to -1, and the Earth is
    somewhere else. *)
Lemma step_nonpositive_dt_changes_state :
  (-1 <=? 0) = true /\
  step_count Sample.inner_system = 0%Z /\
  step_count (step (-1) Sample.inner_system) = 1%Z /\
  simulation_time Sample.inner_system = 0 /\
  simulation_time (step (-1) Sample.inner_system) = -1 /\
  (y (Sample.slot (step (-1) Sample.inner_system) 3) =?
   y (Sample.slot Sample.inner_system 3)) = false.
Proof. vm_compute. repeat split. Qed.

(** C7, as the code has it.  For an index that is negative or not below
    the number of bodies, [get_trajectory] returns the empty vector. *)
Theorem get_trajectory_unknown_index_empty (s : SolarSystem) (body_index : Z) :
  (body_index < 0 \/ get_body_count s <= body_index)%Z ->
  get_trajectory body_index s = [].
Proof. apply get_trajectory_out_of_range. Qed.

Lemma get_trajectory_unknown_index_empty_witness :
  (get_body_count Sample.inner_system <= 17)%Z /\
  get_trajectory 17 Sample.inner_system = [].
Proof.
  split; [by vm_compute |].
  apply (get_trajectory_unknown_index_empty Sample.inner_system 17).
  right. by vm_compute.
Defined.

(** C7, refuted as stated.  The store has four bodies; the queries for
    the indices 17 and -1 return normally, with the empty vector. *)
Lemma get_trajectory_unknown_index_returns :
  get_body_count Sample.inner_system = 4%Z /\
  get_trajectory 17 Sample.inner_system = [] /\
  get_trajectory (-1) Sample.inner_system = [].
Proof. vm_compute. repeat split. Qed.

(** C8.  [compute_acceleration(i)] starts from zero and adds the pulls
    [GRAV * mass(j) / r^3 * (position(j) - position(i))] of the bodies
    [j = 0, ..., i-1, i+1, ..., size-1], in this order.  The run is a
    function of the configuration: two stores whose bodies agree in
    mass, position, velocity and acceleration give, after any number of
    steps with the same [dt], the same positions and the same
    velocities, bit for bit, whatever else differs between them. *)
Theorem force_order_and_determinism (s1 s2 : SolarSystem) (dt : float) (n i : nat) (bi : body) :
  Forall2 same_motion (bodies s1) (bodies s2) ->
  bodies s1 !! i = Some bi ->
  compute_acceleration i (bodies s1) !! i =
    Some (set_acceleration
            (foldl (fun a j => match bodies s1 !! j with
                               | Some bj => vadd a (pull bi bj)
                               | None => a
                               end)
                   (Dbl.zero, Dbl.zero, Dbl.zero)
                   (seq 0 i ++ seq (S i) (length (bodies s1) - S i))) bi) /\
  get_positions (run_steps dt n s1) = get_positions (run_steps dt n s2) /\
  get_velocities (run_steps dt n s1) = get_velocities (run_steps dt n s2).
Proof.
  intros Hsame Hi. split.
  - rewrite (compute_acceleration_spec _ _ _ Hi).
    rewrite list_lookup_insert_eq by (by eapply lookup_lt_Some).
    unfold net_acceleration. rewrite Hi.
    rewrite others_split by (by eapply lookup_lt_Some). done.
  - apply same_motion_queries. by apply run_steps_same_motion.
Qed.

Lemma force_order_and_determinism_witness :
  Sample.inner_system <> Sample.inner_system_later /\
  get_positions (run_steps 3600 5 Sample.inner_system) =
  get_positions (run_steps 3600 5 Sample.inner_system_later).
Proof.
  split.
  - intros H. apply (f_equal step_count) in H. by vm_compute in H.
  - apply (force_order_and_determinism Sample.inner_system
             Sample.inner_system_later 3600 5 3
             (Sample.slot Sample.inner_system 3)).
    + vm_compute. repeat constructor.
    + vm_compute. reflexivity.
Defined.

Lemma calculate_total_energy_bodies (s1 s2 : SolarSystem) :
  bodies s1 = bodies s2 ->
  calculate_total_energy s1 = calculate_total_energy s2.
Proof. intros H. unfold calculate_total_energy. by rewrite H. Qed.

(** C9.  [step(dt)], called any number of times, leaves the cached
    [total_energy] and [initial_energy] as they were, so
    [get_total_energy()] and [get_energy_error()] keep reporting the
    values of the last setup or [simulate].  [simulate] recomputes
    [total_energy] from its final state and keeps [initial_energy]; the
    setup computes both.  After one direct step of the sample store the
    reported total energy is not the energy of the current state. *)
Theorem step_keeps_cached_energy (s : SolarSystem) (dt duration : float) (k : nat) (table : list body) :
  total_energy (run_steps dt k s) = total_energy s /\
  initial_energy (run_steps dt k s) = initial_energy s /\
  get_total_energy (run_steps dt k s) = get_total_energy s /\
  get_energy_error (run_steps dt k s) = get_energy_error s /\
  total_energy (simulate duration dt s) =
    calculate_total_energy (simulate duration dt s) /\
  initial_energy (simulate duration dt s) = initial_energy s /\
  initial_energy (init_real_solar_system table s) =
    calculate_total_energy (init_real_solar_system table s) /\
  total_energy (init_real_solar_system table s) = initial_energy (init_real_solar_system table s) /\
  (get_total_energy (step 3600 Sample.inner_system) =?
   calculate_total_energy (step 3600 Sample.inner_system)) = false.
Proof.
  destruct (run_steps_energy dt k s) as [Ht Hi].
  split; [exact Ht |]. split; [exact Hi |]. split; [exact Ht |].
  split; [unfold get_energy_error; by rewrite Ht, Hi |].
  split; [reflexivity |].
  split.
  { pose proof (simulate_unfold duration dt s) as Hsim. cbv zeta in Hsim.
    rewrite Hsim.
    destruct (simulate_prefix_spec dt s
                (Z.to_nat (double_to_int (duration / dt))))
      as (_ & _ & _ & Hinit & _).
    exact Hinit. }
  split; [by apply calculate_total_energy_bodies |].
  split; [reflexivity |]. by vm_compute.
Qed.

(** C10.  For a body in slot [i] with a well-formed buffer,
    [get_trajectory(i)] is the buffer, oldest sample first, three
    doubles per sample, each a buffered coordinate divided by [AU],
    whereas [get_positions()] holds in places [3i, 3i+1, 3i+2] the
    current coordinates as they are, in metres.  Right after a sample
    is recorded (capacity at least one) the last three doubles of the
    trajectory query are the three doubles of the positions query
    divided by [AU]. *)
Theorem trajectory_in_AU_positions_in_metres (s : SolarSystem) (i : nat) (b : body) :
  bodies s !! i = Some b -> aligned b ->
  get_trajectory (Z.of_nat i) s = concat (in_AU <$> samples b) /\
  take 3 (drop (3 * i) (get_positions s)) = in_metres (position b) /\
  (forall p, in_AU p = (fun v => v / AU) <$> in_metres p) /\
  ((1 <= trajectory_max_points b <= INT_MAX)%Z ->
   exists older,
     get_trajectory (Z.of_nat i)
       (set_bodies (add_trajectory_point <$> bodies s) s) =
     older ++ ((fun v => v / AU) <$>
               take 3 (drop (3 * i)
                 (get_positions
                    (set_bodies (add_trajectory_point <$> bodies s) s))))).
Proof.
  intros Hb Hal.
  split; [by apply get_trajectory_spec |].
  split; [rewrite get_positions_spec; by apply concat_triples_lookup |].
  split; [done |].
  intros Hcap.
  destruct (add_trajectory_point_samples b) as [Hs Ha]; [| done |].
  { unfold INT_MAX in Hcap. lia. }
  assert (Hb' : bodies (set_bodies (add_trajectory_point <$> bodies s) s) !! i
                = Some (add_trajectory_point b)).
  { cbn [bodies set_bodies]. by rewrite list_lookup_fmap, Hb. }
  rewrite (get_trajectory_spec _ i _ Hb' Ha).
  rewrite get_positions_spec, (concat_triples_lookup position _ i _ Hb').
  rewrite add_trajectory_point_position, Hs.
  assert (Hlast : forall l : list vec3,
             concat (in_AU <$> (l ++ [position b])) =
             concat (in_AU <$> l) ++
             ((fun v => v / AU) <$> in_metres (position b))).
  { intros l. by rewrite fmap_app, concat_app. }
  destruct (decide _) as [Hfull |]; [| by eexists].
  destruct (samples b) as [| p0 l]; [cbn in Hfull; unfold capacity in Hfull; lia |].
  cbn [app drop]. rewrite drop_0. by eexists.
Qed.

Lemma trajectory_in_AU_positions_in_metres_witness :
  aligned (Sample.slot Sample.inner_system_later 3) /\
  get_trajectory 3 Sample.inner_system_later =
    (fun v => v / AU) <$>
      take 3 (drop 9 (get_positions Sample.inner_system_later)).
Proof.
  split; [split; reflexivity |].
  destruct (trajectory_in_AU_positions_in_metres Sample.inner_system_later 3
              (Sample.slot Sample.inner_system_later 3))
    as (H1 & H2 & _ & _).
  - vm_compute. reflexivity.
  - split; reflexivity.
  - change (Z.of_nat 3) with 3%Z in H1. rewrite H1.
    change (3 * 3)%nat with 9%nat in H2. rewrite H2.
    vm_compute. reflexivity.
Defined.

End Claims.

(** * More facts about doubles *)

Module DblMore.

Local Open Scope float_scope.

Lemma is_zero_cases (d : float) : is_zero d -> d = 0 \/ d = -0.
Proof.
  unfold is_zero. destruct (Prim2SF d) as [[] | | |] eqn:H; try done; intros _.
  - right. apply Prim2SF_inj. by rewrite H.
  - left. apply Prim2SF_inj. by rewrite H.
Qed.

Lemma finite_nonzero_finite (d : float) : finite_nonzero d -> finite d.
Proof. unfold finite_nonzero, finite. by destruct (Prim2SF d). Qed.

Lemma is_zero_finite (d : float) : is_zero d -> finite d.
Proof. unfold is_zero, finite. by destruct (Prim2SF d). Qed.

(** A finite double minus itself is [+0]. *)
Lemma sub_diag_finite (d : float) : finite d -> d - d = 0.
Proof.
  unfold finite. intros H. apply DblFacts.of_SF_zero. rewrite sub_spec.
  destruct (Prim2SF d) as [[] | | | sg m e]; try done.
  unfold SF64sub, SFsub. cbv zeta. by rewrite Z.sub_diag.
Qed.

(** A finite double times a zero is a zero, either way round. *)
Lemma mul_zero_r (a t : float) : finite a -> is_zero t -> is_zero (a * t).
Proof.
  unfold finite, is_zero. rewrite mul_spec.
  by destruct (Prim2SF a), (Prim2SF t).
Qed.

Lemma mul_zero_l (t a : float) : is_zero t -> finite a -> is_zero (t * a).
Proof.
  unfold finite, is_zero. rewrite mul_spec.
  by destruct (Prim2SF a), (Prim2SF t).
Qed.

(** The difference of two zeros is a zero. *)
Lemma sub_zero_zero (u v : float) : is_zero u -> is_zero v -> is_zero (u - v).
Proof.
  unfold is_zero. rewrite sub_spec.
  by destruct (Prim2SF u) as [[] | | |], (Prim2SF v) as [[] | | |].
Qed.

(** Adding a zero of either sign to [+0] gives [+0]. *)
Lemma add_zero_zero (t : float) : is_zero t -> 0 + t = 0.
Proof.
  intros H. apply DblFacts.of_SF_zero. rewrite add_spec.
  unfold is_zero in H. by destruct (Prim2SF t) as [[] | | |].
Qed.

(** [+0] divided by a finite double other than zero is a zero. *)
Lemma abs_zero_div (e : float) : finite_nonzero e -> abs (0 / e) = 0.
Proof.
  unfold finite_nonzero. intros H. apply DblFacts.of_SF_zero.
  rewrite abs_spec, div_spec. by destruct (Prim2SF e) as [| | | [] m ex].
Qed.

(** [+0] divided by a zero is a NaN. *)
Lemma abs_zero_div_zero (e : float) : is_zero e -> abs (0 / e) = nan.
Proof.
  unfold is_zero. intros H. apply DblFacts.of_SF_nan.
  rewrite abs_spec, div_spec. by destruct (Prim2SF e) as [[] | | |].
Qed.

End DblMore.

(** * What the integrator leaves alone *)

Section FrameFacts.

Import CelestialBody.
Local Open Scope float_scope.

Lemma same_identity_refl (b : body) : same_identity b b.
Proof. unfold same_identity. repeat split. Qed.

Lemma same_identity_trans (b1 b2 b3 : body) :
  same_identity b1 b2 -> same_identity b2 b3 -> same_identity b1 b3.
Proof.
  unfold same_identity.
  intros (?&?&?&?&?&?&?&?&?&?&?&?) (?&?&?&?&?&?&?&?&?&?&?&?).
  repeat split; congruence.
Qed.

Lemma same_identity_verlet (a : vec3) (dt : float) (b : body) :
  same_identity
    (update_velocity dt
       (set_acceleration a (update_position dt (store_old_acceleration b)))) b.
Proof. destruct a as [[a1 a2] a3], b. unfold same_identity. repeat split. Qed.

Lemma trajectory_verlet (a : vec3) (dt : float) (b : body) :
  graft b
    (update_velocity dt
       (set_acceleration a (update_position dt (store_old_acceleration b)))) =
  update_velocity dt
    (set_acceleration a (update_position dt (store_old_acceleration b))).
Proof. destruct a as [[a1 a2] a3], b. lazy. reflexivity. Qed.

Lemma same_identity_add_trajectory_point (b : body) :
  same_identity (add_trajectory_point b) b.
Proof.
  destruct b. unfold add_trajectory_point, same_identity. cbn.
  destruct (_ <? _)%Z; repeat split.
Qed.

Lemma same_identity_store_old (a : vec3) (b : body) :
  same_identity (store_old_acceleration (set_acceleration a b)) b.
Proof. destruct a as [[a1 a2] a3], b. unfold same_identity. repeat split. Qed.

Lemma step_same_identity (dt : float) (s : SolarSystem) :
  Forall2 same_identity (bodies (step dt s)) (bodies s).
Proof.
  apply Forall2_same_length_lookup. split; [apply step_length |].
  intros i b' b Hb' Hb. rewrite (step_lookup _ _ _ _ Hb) in Hb'.
  injection Hb' as <-. apply same_identity_verlet.
Qed.

Lemma Forall2_same_identity_trans (l1 l2 l3 : list body) :
  Forall2 same_identity l1 l2 -> Forall2 same_identity l2 l3 ->
  Forall2 same_identity l1 l3.
Proof.
  intros H. revert l3. induction H as [| b1 b2 l1 l2 Hb _ IH]; intros l3 H23.
  - by inversion H23.
  - inversion H23 as [| ? b3 ? l3' Hb' H23']; subst.
    constructor; [by eapply same_identity_trans | by apply IH].
Qed.

Lemma simulate_body_same_identity (dt : float) (i : Z) (s : SolarSystem) :
  Forall2 same_identity (bodies (simulate_body dt i s)) (bodies s).
Proof.
  unfold simulate_body. destruct (_ =? _)%Z; [| apply step_same_identity].
  cbn [bodies set_bodies].
  eapply Forall2_same_identity_trans; [| apply step_same_identity].
  apply Forall2_fmap_l, Forall_Forall2_diag, Forall_forall.
  intros b _. apply same_identity_add_trajectory_point.
Qed.

Lemma simulate_same_identity (duration dt : float) (s : SolarSystem) :
  Forall2 same_identity (bodies (simulate duration dt s)) (bodies s).
Proof.
  unfold simulate. cbn [bodies set_total_energy].
  generalize (seqZ 0 (double_to_int (duration / dt))). intros l.
  induction l as [| i l IH] using rev_ind.
  - cbn. apply Forall_Forall2_diag, Forall_forall. intros b _.
    apply same_identity_refl.
  - rewrite foldl_app. cbn [foldl].
    eapply Forall2_same_identity_trans; [| exact IH].
    apply simulate_body_same_identity.
Qed.

Lemma get_masses_spec (s : SolarSystem) : get_masses s = mass <$> bodies s.
Proof.
  unfold get_masses. rewrite (foldl_push_back (fun b => [mass b])). cbn.
  induction (bodies s) as [| b l IH]; [done |]. cbn. by rewrite IH.
Qed.

Lemma get_radii_spec (s : SolarSystem) : get_radii s = radius <$> bodies s.
Proof.
  unfold get_radii. rewrite (foldl_push_back (fun b => [radius b])). cbn.
  induction (bodies s) as [| b l IH]; [done |]. cbn. by rewrite IH.
Qed.

Lemma get_names_spec (s : SolarSystem) : get_names s = name <$> bodies s.
Proof.
  unfold get_names. rewrite (foldl_push_back (fun b => [name b])). cbn.
  induction (bodies s) as [| b l IH]; [done |]. cbn. by rewrite IH.
Qed.

Lemma same_identity_queries (s1 s2 : SolarSystem) :
  Forall2 same_identity (bodies s1) (bodies s2) ->
  get_body_count s1 = get_body_count s2 /\
  get_names s1 = get_names s2 /\
  get_masses s1 = get_masses s2 /\
  get_radii s1 = get_radii s2.
Proof.
  intros H. rewrite !get_names_spec, !get_masses_spec, !get_radii_spec.
  split; [unfold get_body_count; by rewrite (Forall2_length _ _ _ H) |].
  split; [| split]; (eapply fmap_related; [| exact H]);
    unfold same_identity; intros b1 b2 Hb; tauto.
Qed.

End FrameFacts.

(** * Setup and the Ready state *)

Section SetupFacts.

Import CelestialBody.
Local Open Scope float_scope.

Lemma acceleration_set_acceleration (a : vec3) (b : body) :
  acceleration (set_acceleration a b) = a.
Proof. by destruct a as [[a1 a2] a3]. Qed.

Lemma set_acceleration_acceleration (b : body) :
  set_acceleration (acceleration b) b = b.
Proof. by destruct b. Qed.

Lemma set_acceleration_set_acceleration (a a' : vec3) (b : body) :
  set_acceleration a' (set_acceleration a b) = set_acceleration a' b.
Proof. reflexivity. Qed.

Lemma with_net_acceleration_same_place (bs : list body) :
  Forall2 same_place (with_net_acceleration bs) bs.
Proof.
  apply Forall2_same_length_lookup. split.
  - unfold with_net_acceleration. by rewrite length_imap.
  - intros i b' b Hb' Hb. rewrite (with_net_acceleration_lookup _ _ _ Hb) in Hb'.
    by injection Hb' as <-.
Qed.

(** Evaluating the forces a second time, nothing having moved, changes
    nothing. *)
Lemma with_net_acceleration_idempotent (bs : list body) :
  with_net_acceleration (with_net_acceleration bs) = with_net_acceleration bs.
Proof.
  apply list_eq. intros i.
  destruct (bs !! i) as [b |] eqn:Hb.
  - pose proof (with_net_acceleration_lookup _ _ _ Hb) as Hb'.
    rewrite (with_net_acceleration_lookup _ _ _ Hb'), Hb'.
    rewrite (net_acceleration_same_place _ _ i
               (with_net_acceleration_same_place bs)).
    by rewrite set_acceleration_set_acceleration.
  - unfold with_net_acceleration at 1 3. rewrite !list_lookup_imap.
    assert (with_net_acceleration bs !! i = None) as ->.
    { unfold with_net_acceleration. by rewrite list_lookup_imap, Hb. }
    by rewrite Hb.
Qed.

Lemma Ready_fixpoint (s : SolarSystem) :
  Ready s <-> compute_all_accelerations (bodies s) = bodies s.
Proof.
  rewrite compute_all_accelerations_spec. split.
  - intros HR. apply list_eq. intros i.
    destruct (bodies s !! i) as [b |] eqn:Hb.
    + rewrite (with_net_acceleration_lookup _ _ _ Hb), <- (HR i b Hb).
      by rewrite set_acceleration_acceleration.
    + unfold with_net_acceleration. by rewrite list_lookup_imap, Hb.
  - intros Hfix i b Hb. pose proof (with_net_acceleration_lookup _ _ _ Hb) as Hb'.
    rewrite Hfix, Hb in Hb'. injection Hb' as Hb'.
    rewrite Hb' at 1. by rewrite acceleration_set_acceleration.
Qed.

(** The Ready state depends on masses, positions and accelerations
    only. *)
Lemma Ready_transfer (s1 s2 : SolarSystem) :
  Forall2 (fun b1 b2 => same_place b1 b2 /\ acceleration b1 = acceleration b2)
          (bodies s1) (bodies s2) ->
  Ready s2 -> Ready s1.
Proof.
  intros H HR i b1 Hb1.
  destruct (Forall2_lookup_l _ _ _ _ _ H Hb1) as (b2 & Hb2 & Hplace & Hacc).
  rewrite Hacc, (HR i b2 Hb2). symmetry.
  apply net_acceleration_same_place.
  eapply Forall2_impl; [exact H |]. by intros ? ? [? _].
Qed.

Lemma init_bodies (table : list body) (s : SolarSystem) :
  bodies (init_real_solar_system table s) =
  store_old_acceleration <$> with_net_acceleration table.
Proof.
  unfold init_real_solar_system, set_total_energy, set_initial_energy,
    set_bodies, set_step_count, set_simulation_time.
  cbn [bodies app]. by rewrite compute_all_accelerations_spec.
Qed.

Lemma init_lookup (table : list body) (s : SolarSystem) (i : nat) (b : body) :
  table !! i = Some b ->
  bodies (init_real_solar_system table s) !! i =
  Some (store_old_acceleration (set_acceleration (net_acceleration table i) b)).
Proof.
  intros Hb. rewrite init_bodies, list_lookup_fmap.
  by rewrite (with_net_acceleration_lookup _ _ _ Hb).
Qed.

Lemma init_length (table : list body) (s : SolarSystem) :
  length (bodies (init_real_solar_system table s)) = length table.
Proof.
  rewrite init_bodies. unfold with_net_acceleration.
  by rewrite length_fmap, length_imap.
Qed.

(** The members of a body after setup. *)
Lemma init_body_fields (a : vec3) (b : body) :
  let b' := store_old_acceleration (set_acceleration a b) in
  acceleration b' = a /\ acceleration_old b' = a /\
  position b' = position b /\ velocity b' = velocity b /\
  graft b b' = b'.
Proof. destruct a as [[a1 a2] a3], b. lazy. repeat split. Qed.

Lemma init_Ready (table : list body) (s : SolarSystem) :
  Ready (init_real_solar_system table s).
Proof.
  apply (Ready_transfer _ (set_bodies (with_net_acceleration table) s)).
  - cbn [bodies set_bodies]. rewrite init_bodies.
    apply Forall2_fmap_l, Forall_Forall2_diag, Forall_forall.
    intros b _. by destruct b.
  - apply Ready_fixpoint. cbn [bodies set_bodies].
    rewrite compute_all_accelerations_spec.
    apply with_net_acceleration_idempotent.
Qed.

End SetupFacts.

(** * Buffers and motion through a batch run *)

Section RunFacts.

Import CelestialBody.
Local Open Scope float_scope.

Lemma graft_buffer (t p : body) :
  samples (graft t p) = samples t /\
  trajectory_x (graft t p) = trajectory_x t /\
  trajectory_y (graft t p) = trajectory_y t /\
  trajectory_z (graft t p) = trajectory_z t /\
  trajectory_max_points (graft t p) = trajectory_max_points p.
Proof. by destruct p. Qed.

Lemma well_formed_graft (t p : body) :
  trajectory_max_points p = trajectory_max_points t ->
  well_formed_buffer t -> well_formed_buffer (graft t p).
Proof.
  intros Hcap (Hc & Hal & Hlen).
  destruct (graft_buffer t p) as (Hs & Hx & Hy & Hz & Hm).
  unfold well_formed_buffer, aligned, capacity.
  rewrite Hs, Hx, Hy, Hz, Hm, Hcap. done.
Qed.

Lemma well_formed_push_all (ps : list vec3) (b : body) :
  well_formed_buffer b -> well_formed_buffer (foldl push b ps).
Proof.
  intros (Hc & Hal & Hlen).
  destruct (push_all_samples ps b) as (Hs & Ha & Hm); [| done | done |].
  { unfold INT_MAX in Hc. lia. }
  unfold well_formed_buffer, capacity. rewrite Hm, Hs.
  split; [done |]. split; [done |]. apply window_length.
Qed.

Lemma well_formed_add_trajectory_point (b : body) :
  well_formed_buffer b -> well_formed_buffer (add_trajectory_point b).
Proof.
  intros (Hc & Hal & Hlen).
  destruct (add_trajectory_point_samples b) as [Hs Ha]; [| done |].
  { unfold INT_MAX in Hc. lia. }
  unfold well_formed_buffer, capacity.
  rewrite add_trajectory_point_capacity, Hs.
  split; [done |]. split; [done |]. fold (capacity b).
  destruct (decide _).
  - rewrite length_drop, length_app. cbn. lia.
  - rewrite length_app. cbn. lia.
Qed.

Lemma step_well_formed (dt : float) (s : SolarSystem) :
  Forall well_formed_buffer (bodies s) ->
  Forall well_formed_buffer (bodies (step dt s)).
Proof.
  intros H. apply Forall_lookup. intros i b' Hb'.
  destruct (bodies s !! i) as [b |] eqn:Hb.
  - rewrite (step_lookup _ _ _ _ Hb) in Hb'. injection Hb' as <-.
    rewrite <- trajectory_verlet. apply well_formed_graft.
    + apply same_identity_verlet.
    + by eapply Forall_lookup_1.
  - apply lookup_lt_Some in Hb'. rewrite step_length in Hb'.
    apply lookup_ge_None in Hb. lia.
Qed.

Lemma init_well_formed (table : list body) (s : SolarSystem) :
  Forall well_formed_buffer table ->
  Forall well_formed_buffer (bodies (init_real_solar_system table s)).
Proof.
  intros H. apply Forall_lookup. intros i b' Hb'.
  destruct (table !! i) as [b |] eqn:Hb.
  - rewrite (init_lookup _ _ _ _ Hb) in Hb'. injection Hb' as <-.
    destruct (init_body_fields (net_acceleration table i) b)
      as (_ & _ & _ & _ & Hg).
    rewrite <- Hg. apply well_formed_graft.
    + apply same_identity_store_old.
    + by eapply Forall_lookup_1.
  - apply lookup_lt_Some in Hb'. rewrite init_length in Hb'.
    apply lookup_ge_None in Hb. lia.
Qed.

Lemma simulate_lookup (duration dt : float) (s : SolarSystem) (i : nat) (b : body) :
  bodies s !! i = Some b ->
  let k := Z.to_nat (double_to_int (duration / dt)) in
  exists p, bodies (run_steps dt k s) !! i = Some p /\
            trajectory_max_points p = trajectory_max_points b /\
            bodies (simulate duration dt s) !! i =
            Some (graft (foldl push b (recorded dt s i k)) p).
Proof.
  intros Hb. cbv zeta.
  pose proof (simulate_unfold duration dt s) as Hsim. cbv zeta in Hsim.
  rewrite Hsim. cbn [bodies set_total_energy].
  destruct (simulate_prefix_spec dt s (Z.to_nat (double_to_int (duration / dt))))
    as (_ & _ & _ & _ & _ & Hbodies).
  by apply Hbodies.
Qed.

Lemma simulate_length (duration dt : float) (s : SolarSystem) :
  length (bodies (simulate duration dt s)) = length (bodies s).
Proof.
  pose proof (simulate_unfold duration dt s) as Hsim. cbv zeta in Hsim.
  rewrite Hsim. cbn [bodies set_total_energy].
  by destruct (simulate_prefix_spec dt s (Z.to_nat (double_to_int (duration / dt))))
    as (_ & _ & _ & _ & Hl & _).
Qed.

Lemma simulate_well_formed (duration dt : float) (s : SolarSystem) :
  Forall well_formed_buffer (bodies s) ->
  Forall well_formed_buffer (bodies (simulate duration dt s)).
Proof.
  intros H. apply Forall_lookup. intros i b' Hb'.
  destruct (bodies s !! i) as [b |] eqn:Hb.
  - destruct (simulate_lookup duration dt s i b Hb) as (p & _ & Hcap & HS).
    rewrite HS in Hb'. injection Hb' as <-.
    apply well_formed_graft.
    + by rewrite foldl_push_capacity.
    + apply well_formed_push_all. by eapply Forall_lookup_1.
  - apply lookup_lt_Some in Hb'. rewrite simulate_length in Hb'.
    apply lookup_ge_None in Hb. lia.
Qed.

Lemma length_in_AU_samples (l : list vec3) :
  length (concat (in_AU <$> l)) = (3 * length l)%nat.
Proof. induction l as [| p l IH]; [done |]. cbn. lia. Qed.

Lemma same_motion_graft (t p : body) : same_motion (graft t p) p.
Proof. destruct p. unfold same_motion. repeat split. Qed.

Lemma same_motion_sym (b1 b2 : body) : same_motion b1 b2 -> same_motion b2 b1.
Proof. unfold same_motion. intros (? & ? & ? & ?). repeat split; congruence. Qed.

Lemma same_motion_trans (b1 b2 b3 : body) :
  same_motion b1 b2 -> same_motion b2 b3 -> same_motion b1 b3.
Proof.
  unfold same_motion. intros (? & ? & ? & ?) (? & ? & ? & ?).
  repeat split; congruence.
Qed.

Lemma Forall2_same_motion_trans (l1 l2 l3 : list body) :
  Forall2 same_motion l1 l2 -> Forall2 same_motion l2 l3 ->
  Forall2 same_motion l1 l3.
Proof.
  intros H12 H23. eapply Forall2_trans; [| exact H12 | exact H23].
  apply same_motion_trans.
Qed.

(** A batch run moves the bodies exactly as the same number of plain
    steps does. *)
Lemma simulate_same_motion (duration dt : float) (s : SolarSystem) :
  Forall2 same_motion
    (bodies (simulate duration dt s))
    (bodies (run_steps dt (Z.to_nat (double_to_int (duration / dt))) s)).
Proof.
  apply Forall2_same_length_lookup. split.
  - by rewrite simulate_length, run_steps_length.
  - intros i b1 b2 H1 H2.
    destruct (bodies s !! i) as [b |] eqn:Hb.
    + destruct (simulate_lookup duration dt s i b Hb) as (p & Hp & _ & HS).
      rewrite HS in H1. rewrite Hp in H2.
      injection H1 as <-. injection H2 as <-. apply same_motion_graft.
    + apply lookup_lt_Some in H1. rewrite simulate_length in H1.
      apply lookup_ge_None in Hb. lia.
Qed.

Lemma run_steps_add (dt : float) (n1 n2 : nat) (s : SolarSystem) :
  run_steps dt (n1 + n2) s = run_steps dt n2 (run_steps dt n1 s).
Proof. unfold run_steps. by rewrite Nat.add_comm, Nat.iter_add. Qed.

Lemma run_steps_Ready (dt : float) (k : nat) (s : SolarSystem) :
  Ready s -> Ready (run_steps dt k s).
Proof.
  intros H. destruct k as [| k]; [done |].
  rewrite run_steps_S. apply step_Ready.
Qed.

End RunFacts.

(** * Angular momentum, a runaway buffer, and small stores *)

Section MoreFacts.

Import CelestialBody.
Local Open Scope float_scope.

(** The third accumulator of [calculate_angular_momentum] on its own. *)
Lemma angular_momentum_z (bs : list body) (L : vec3) :
  (foldl angular_momentum_body L bs).2 =
  foldl (fun Lz b => Lz + mass b * (x b * vy b - y b * vx b)) L.2 bs.
Proof.
  revert L. induction bs as [| b bs IH]; intros L; [done |].
  cbn [foldl]. by rewrite IH.
Qed.

(** In a planar store the first two accumulators never leave [+0]. *)
Lemma angular_momentum_planar (bs : list body) (L : vec3) :
  Forall planar bs -> L.1.1 = 0 -> L.1.2 = 0 ->
  (foldl angular_momentum_body L bs).1.1 = 0 /\
  (foldl angular_momentum_body L bs).1.2 = 0.
Proof.
  intros H. revert L.
  induction H as [| b bs (Hz & Hvz & Hm & Hx & Hy & Hvx & Hvy) _ IH];
    intros L HLx HLy; [done |].
  cbn [foldl]. apply IH; unfold angular_momentum_body; cbn [fst snd].
  - rewrite HLx. apply DblMore.add_zero_zero, DblMore.mul_zero_r; [done |].
    apply DblMore.sub_zero_zero.
    + by apply DblMore.mul_zero_r.
    + by apply DblMore.mul_zero_l.
  - rewrite HLy. apply DblMore.add_zero_zero, DblMore.mul_zero_r; [done |].
    apply DblMore.sub_zero_zero.
    + by apply DblMore.mul_zero_l.
    + by apply DblMore.mul_zero_r.
Qed.

Lemma to_size_t_negative (n : Z) :
  (INT_MIN <= n < 0)%Z -> to_size_t n = (n + 2 ^ 64)%Z.
Proof.
  unfold INT_MIN, to_size_t. intros H.
  rewrite <- (Z.mod_add n 1 (2 ^ 64)) by lia.
  rewrite Z.mod_small; lia.
Qed.

(** With a negative capacity the test of [add_trajectory_point] compares
    against a number near [2^64] and the erase never runs. *)
Lemma add_trajectory_point_negative_capacity (b : body) :
  (INT_MIN <= trajectory_max_points b < 0)%Z ->
  (Z.of_nat (length (trajectory_x b)) < 2 ^ 63)%Z ->
  trajectory_x (add_trajectory_point b) = trajectory_x b ++ [x b] /\
  trajectory_y (add_trajectory_point b) = trajectory_y b ++ [y b] /\
  trajectory_z (add_trajectory_point b) = trajectory_z b ++ [z b].
Proof.
  intros Hcap Hlen. unfold add_trajectory_point. cbn.
  rewrite to_size_t_negative by done. rewrite length_app. cbn [length].
  destruct (Z.ltb_spec (trajectory_max_points b + 2 ^ 64)
              (Z.of_nat (length (trajectory_x b) + 1))) as [Hlt | _]; [| done].
  unfold INT_MIN in Hcap. lia.
Qed.

Lemma push_all_negative_capacity (ps : list vec3) (b : body) :
  (INT_MIN <= trajectory_max_points b < 0)%Z ->
  (Z.of_nat (length (trajectory_x b) + length ps) < 2 ^ 63)%Z ->
  trajectory_x (foldl push b ps) = trajectory_x b ++ ((fun p => p.1.1) <$> ps) /\
  trajectory_y (foldl push b ps) = trajectory_y b ++ ((fun p => p.1.2) <$> ps) /\
  trajectory_z (foldl push b ps) = trajectory_z b ++ ((fun p => p.2) <$> ps).
Proof.
  intros Hcap. induction ps as [| p ps IH] using rev_ind; intros Hlen.
  - cbn. by rewrite !app_nil_r.
  - rewrite length_app in Hlen. cbn [length] in Hlen.
    destruct IH as (Hx & Hy & Hz); [lia |].
    rewrite foldl_app. cbn [foldl]. unfold push at 1 3 5.
    destruct (add_trajectory_point_negative_capacity
                (move_to p (foldl push b ps))) as (Hx' & Hy' & Hz').
    { change (trajectory_max_points (move_to p (foldl push b ps)))
        with (trajectory_max_points (foldl push b ps)).
      by rewrite foldl_push_capacity. }
    { change (trajectory_x (move_to p (foldl push b ps)))
        with (trajectory_x (foldl push b ps)).
      rewrite Hx, length_app, length_fmap. lia. }
    rewrite Hx', Hy', Hz'.
    change (trajectory_x (move_to p (foldl push b ps)))
      with (trajectory_x (foldl push b ps)).
    change (trajectory_y (move_to p (foldl push b ps)))
      with (trajectory_y (foldl push b ps)).
    change (trajectory_z (move_to p (foldl push b ps)))
      with (trajectory_z (foldl push b ps)).
    rewrite Hx, Hy, Hz, !fmap_app, !app_assoc. by destruct p as [[px py] pz].
Qed.

Lemma net_acceleration_singleton (b : body) :
  net_acceleration [b] 0 = (Dbl.zero, Dbl.zero, Dbl.zero).
Proof. reflexivity. Qed.

Lemma with_net_acceleration_singleton (b : body) :
  with_net_acceleration [b] =
  [set_acceleration (Dbl.zero, Dbl.zero, Dbl.zero) b].
Proof. reflexivity. Qed.

Lemma fmap_over_AU (l : list body) :
  concat ((fun b => in_AU (position b)) <$> l) =
  (fun v => v / AU) <$> concat ((fun b => in_metres (position b)) <$> l).
Proof.
  induction l as [| b l IH]; [done |].
  cbn [fmap list_fmap concat]. by rewrite fmap_app, IH.
Qed.

Lemma length_concat_triples {B : Type} (f : B -> vec3) (l : list B) :
  length (concat ((fun b => in_metres (f b)) <$> l)) = (3 * length l)%nat.
Proof. induction l as [| b l IH]; [done |]. cbn. lia. Qed.

End MoreFacts.

(** * Further properties of the code *)

Section Extras.

Import CelestialBody.
Local Open Scope float_scope.

(** X1.  The flat queries hold three doubles per body, in body order:
    [get_positions_au()] is [get_positions()] with every entry divided by
    [AU], the three vectors have length [3 * size], and the entries
    [3i, 3i+1, 3i+2] of [get_velocities()] are the velocity of body
    [i]. *)
Theorem flat_queries_shape (s : SolarSystem) :
  get_positions_au s = (fun v => v / AU) <$> get_positions s /\
  length (get_positions s) = (3 * length (bodies s))%nat /\
  length (get_positions_au s) = (3 * length (bodies s))%nat /\
  length (get_velocities s) = (3 * length (bodies s))%nat /\
  (forall i b, bodies s !! i = Some b ->
     take 3 (drop (3 * i) (get_velocities s)) = in_metres (velocity b)).
Proof.
  assert (Hau : get_positions_au s =
                (fun v => v / AU) <$> get_positions s).
  { rewrite get_positions_spec, <- fmap_over_AU. unfold get_positions_au.
    by rewrite (foldl_push_back (fun b => in_AU (position b))). }
  split; [exact Hau |].
  split; [rewrite get_positions_spec; apply length_concat_triples |].
  split; [rewrite Hau, length_fmap, get_positions_spec;
          apply length_concat_triples |].
  split; [rewrite get_velocities_spec; apply length_concat_triples |].
  intros i b Hb. rewrite get_velocities_spec.
  by apply concat_triples_lookup.
Qed.

(** X2.  Neither [step] nor [simulate] adds, removes, renames or
    re-weighs a body: the body count and the vectors of names, masses
    and radii are the same after the call as before. *)
Theorem run_keeps_identity (s : SolarSystem) (duration dt : float) :
  (get_body_count (step dt s) = get_body_count s /\
   get_names (step dt s) = get_names s /\
   get_masses (step dt s) = get_masses s /\
   get_radii (step dt s) = get_radii s) /\
  (get_body_count (simulate duration dt s) = get_body_count s /\
   get_names (simulate duration dt s) = get_names s /\
   get_masses (simulate duration dt s) = get_masses s /\
   get_radii (simulate duration dt s) = get_radii s).
Proof.
  split; apply same_identity_queries.
  - apply step_same_identity.
  - apply simulate_same_identity.
Qed.

(** X3.  A direct [step] records nothing: for every index, valid or not,
    [get_trajectory] answers after the step what it answered before. *)
Theorem step_keeps_trajectories (s : SolarSystem) (dt : float) (body_index : Z) :
  get_trajectory body_index (step dt s) = get_trajectory body_index s.
Proof.
  unfold get_trajectory. rewrite step_length.
  destruct (_ || _); [done |].
  destruct (bodies s !! Z.to_nat body_index) as [b |] eqn:Hb.
  - rewrite (step_lookup _ _ _ _ Hb).
    set (b' := update_velocity dt _).
    destruct (graft_buffer b b') as (_ & Hx & Hy & Hz & _).
    unfold b' in Hx, Hy, Hz. rewrite trajectory_verlet in Hx, Hy, Hz.
    fold b' in Hx, Hy, Hz. by rewrite Hx, Hy, Hz.
  - assert (bodies (step dt s) !! Z.to_nat body_index = None) as ->; [| done].
    apply lookup_ge_None. rewrite step_length. by apply lookup_ge_None.
Qed.

(** X4.  The setup forgets the previous store altogether and leaves the
    integrator Ready: body [i] of the table keeps its position and
    velocity, its acceleration is the net acceleration for the table's
    positions and its saved acceleration is the same; the clock and the
    step counter are zero, and the cached total energy equals the
    reference energy. *)
Theorem setup_contract (table : list body) (s s' : SolarSystem) (i : nat) (b : body) :
  table !! i = Some b ->
  (exists b',
     bodies (init_real_solar_system table s) !! i = Some b' /\
     acceleration b' = net_acceleration table i /\
     acceleration_old b' = acceleration b' /\
     position b' = position b /\ velocity b' = velocity b) /\
  Ready (init_real_solar_system table s) /\
  get_body_count (init_real_solar_system table s) = Z.of_nat (length table) /\
  simulation_time (init_real_solar_system table s) = 0 /\
  step_count (init_real_solar_system table s) = 0%Z /\
  total_energy (init_real_solar_system table s) =
    initial_energy (init_real_solar_system table s) /\
  init_real_solar_system table s = init_real_solar_system table s'.
Proof.
  intros Hb. split.
  { destruct (init_body_fields (net_acceleration table i) b)
      as (Ha & Ho & Hp & Hv & _).
    eexists. split; [by apply init_lookup |].
    split; [exact Ha |]. split; [by rewrite Ha, Ho |]. by split. }
  split; [apply init_Ready |].
  split; [unfold get_body_count; by rewrite init_length |].
  repeat split.
Qed.

Lemma setup_contract_witness :
  Ready Sample.inner_system /\ get_body_count Sample.inner_system = 4%Z.
Proof.
  destruct (setup_contract [Sample.sun; Sample.mercury; Sample.venus; Sample.earth]
              SolarSystem_new SolarSystem_new 3 Sample.earth)
    as (_ & HR & Hn & _).
  - reflexivity.
  - split; [exact HR | exact Hn].
Defined.

(** X5.  The Ready state is kept: from a Ready store, any number of
    direct steps and a batch run of any length end in a Ready store. *)
Theorem ready_is_kept (s : SolarSystem) (duration dt : float) (k : nat) :
  Ready s ->
  Ready (run_steps dt k s) /\ Ready (simulate duration dt s).
Proof.
  intros HR. split; [by apply run_steps_Ready |].
  apply (Ready_transfer _
           (run_steps dt (Z.to_nat (double_to_int (duration / dt))) s)).
  - eapply Forall2_impl; [apply simulate_same_motion |].
    intros b1 b2 (Hm & Hp & _ & Ha). by repeat split.
  - by apply run_steps_Ready.
Qed.

Lemma ready_is_kept_witness :
  Ready (simulate 72000 3600 Sample.inner_system).
Proof.
  apply (ready_is_kept Sample.inner_system 72000 3600 0).
  apply init_Ready.
Defined.

(** X6.  A store with fewer than two bodies has no forces and no
    potential energy: after the force evaluation, and after a step,
    every acceleration is exactly zero, and [calculate_total_energy()]
    returns the kinetic sum plus zero. *)
Theorem lone_body_feels_no_force (s : SolarSystem) (dt : float) :
  (length (bodies s) <= 1)%nat ->
  Forall (fun b => acceleration b = (0, 0, 0))
         (compute_all_accelerations (bodies s)) /\
  Forall (fun b => acceleration b = (0, 0, 0)) (bodies (step dt s)) /\
  calculate_total_energy s = kinetic_energy (bodies s) + 0.
Proof.
  intros Hlen.
  rewrite step_bodies, compute_all_accelerations_spec,
    calculate_total_energy_spec.
  destruct (bodies s) as [| b [| b2 bs]]; [| | cbn in Hlen; lia].
  - repeat split; constructor.
  - split; [| split; [| reflexivity]].
    + rewrite with_net_acceleration_singleton. constructor; [| constructor].
      by rewrite acceleration_set_acceleration.
    + change (drifted dt [b])
        with [update_position dt (store_old_acceleration b)].
      rewrite with_net_acceleration_singleton.
      constructor; [| constructor].
      by destruct (verlet_body_fields (Dbl.zero, Dbl.zero, Dbl.zero) dt b)
        as (_ & _ & Ha & _).
Qed.

Lemma lone_body_feels_no_force_witness :
  (length (bodies MoreSamples.lone_sun) <= 1)%nat /\
  Forall (fun b => acceleration b = (0, 0, 0))
         (bodies (step 3600 MoreSamples.lone_sun)).
Proof.
  split; [vm_compute; lia |].
  apply (lone_body_feels_no_force MoreSamples.lone_sun 3600).
  vm_compute. lia.
Defined.

(** X7.  Well-formed buffers stay well-formed: when every body's three
    trajectory vectors have one length, not above a capacity between
    zero and [INT_MAX], the same holds after [step] and after
    [simulate], and a setup from a table of such bodies gives such a
    store; after [simulate] the flat vector [get_trajectory(i)] has
    exactly three doubles per sample, at most [3 * capacity] in all. *)
Theorem buffers_stay_well_formed (table : list body) (s : SolarSystem) (duration dt : float) (i : nat) (b : body) :
  Forall well_formed_buffer table ->
  Forall well_formed_buffer (bodies s) ->
  bodies s !! i = Some b ->
  Forall well_formed_buffer (bodies (init_real_solar_system table s)) /\
  Forall well_formed_buffer (bodies (step dt s)) /\
  Forall well_formed_buffer (bodies (simulate duration dt s)) /\
  exists k, (k <= capacity b)%nat /\
            length (get_trajectory (Z.of_nat i) (simulate duration dt s)) =
            (3 * k)%nat.
Proof.
  intros Htable Hwf Hb.
  split; [by apply init_well_formed |].
  split; [by apply step_well_formed |].
  pose proof (simulate_well_formed duration dt s Hwf) as Hwf'.
  split; [exact Hwf' |].
  destruct (simulate_lookup duration dt s i b Hb) as (p & _ & Hcap & HS).
  pose proof (Forall_lookup_1 _ _ _ _ Hwf' HS) as (_ & Hal & Hlen).
  exists (length (samples (graft (foldl push b (recorded dt s i
            (Z.to_nat (double_to_int (duration / dt))))) p))).
  split.
  - unfold capacity in *.
    destruct (graft_buffer (foldl push b (recorded dt s i
                (Z.to_nat (double_to_int (duration / dt))))) p)
      as (_ & _ & _ & _ & Hm).
    rewrite Hm, Hcap in Hlen. exact Hlen.
  - rewrite (get_trajectory_spec _ _ _ HS Hal). apply length_in_AU_samples.
Qed.

Lemma buffers_stay_well_formed_witness :
  Forall well_formed_buffer (bodies Sample.inner_system) /\
  exists k, (k <= 1000)%nat /\
            length (get_trajectory 3 (simulate 72000 3600 Sample.inner_system)) =
            (3 * k)%nat.
Proof.
  assert (Ht : Forall well_formed_buffer
                 [Sample.sun; Sample.mercury; Sample.venus; Sample.earth]).
  { repeat (apply List.Forall_cons;
            [split; [by vm_compute | split; [by split | vm_compute; lia]] |]).
    apply List.Forall_nil. }
  assert (H : Forall well_formed_buffer (bodies Sample.inner_system)).
  { unfold Sample.inner_system. by apply init_well_formed. }
  split; [exact H |].
  apply (buffers_stay_well_formed _ Sample.inner_system 72000 3600 3
           (Sample.slot Sample.inner_system 3) Ht H).
  vm_compute. reflexivity.
Defined.

(** X8.  A run shorter than one step takes no step: when the truncated
    quotient [duration / dt] is zero or negative, [simulate] moves
    nothing, records nothing and leaves the clock and the counter; it
    only refreshes the cached total energy. *)
Theorem simulate_shorter_than_one_step (s : SolarSystem) (duration dt : float) (n : Z) :
  SF_trunc (Prim2SF (duration / dt)) = Some n ->
  (INT_MIN <= n <= 0)%Z ->
  simulate duration dt s = set_total_energy (calculate_total_energy s) s.
Proof.
  intros Htr Hn.
  pose proof (simulate_unfold duration dt s) as Hsim. cbv zeta in Hsim.
  assert (Hint : double_to_int (duration / dt) = n).
  { unfold double_to_int. rewrite Htr.
    destruct (Z.leb_spec INT_MIN n); [| lia].
    destruct (Z.leb_spec n INT_MAX); [done |]. unfold INT_MAX in *. lia. }
  rewrite Hint in Hsim. by replace (Z.to_nat n) with 0%nat in Hsim by lia.
Qed.

Lemma simulate_shorter_than_one_step_witness :
  SF_trunc (Prim2SF (1800 / 3600)) = Some 0%Z /\
  simulate 1800 3600 Sample.inner_system =
  set_total_energy (calculate_total_energy Sample.inner_system)
                   Sample.inner_system.
Proof.
  split; [reflexivity |].
  apply (simulate_shorter_than_one_step Sample.inner_system 1800 3600 0).
  - reflexivity.
  - by vm_compute.
Defined.

(** X9.  Batching does not change the motion: after [simulate] the
    positions and velocities are those of the same number of direct
    [step] calls, and two runs of [n1] and [n2] steps in a row give the
    positions and velocities of [n1 + n2] direct steps. *)
Theorem batch_runs_compose (s : SolarSystem) (d1 d2 dt : float) (n1 n2 : Z) :
  double_floor (d1 / dt) = Some n1 -> double_floor (d2 / dt) = Some n2 ->
  (0 <= n1 <= INT_MAX)%Z -> (0 <= n2 <= INT_MAX)%Z ->
  (get_positions (simulate d1 dt s) =
     get_positions (run_steps dt (Z.to_nat n1) s) /\
   get_velocities (simulate d1 dt s) =
     get_velocities (run_steps dt (Z.to_nat n1) s)) /\
  (get_positions (simulate d2 dt (simulate d1 dt s)) =
     get_positions (run_steps dt (Z.to_nat (n1 + n2)) s) /\
   get_velocities (simulate d2 dt (simulate d1 dt s)) =
     get_velocities (run_steps dt (Z.to_nat (n1 + n2)) s)).
Proof.
  intros H1 H2 Hn1 Hn2.
  pose proof (simulate_same_motion d1 dt s) as Hm1.
  pose proof (simulate_same_motion d2 dt (simulate d1 dt s)) as Hm2.
  rewrite (double_floor_to_int _ _ H1 Hn1) in Hm1.
  rewrite (double_floor_to_int _ _ H2 Hn2) in Hm2.
  split; [by apply same_motion_queries |].
  apply same_motion_queries.
  eapply Forall2_same_motion_trans; [exact Hm2 |].
  rewrite Z2Nat.inj_add, run_steps_add by lia.
  by apply run_steps_same_motion.
Qed.

Lemma batch_runs_compose_witness :
  double_floor (7200 / 3600) = Some 2%Z /\
  double_floor (10800 / 3600) = Some 3%Z /\
  get_positions (simulate 10800 3600 (simulate 7200 3600 Sample.inner_system)) =
  get_positions (run_steps 3600 5 Sample.inner_system).
Proof.
  split; [reflexivity |]. split; [reflexivity |].
  apply (batch_runs_compose Sample.inner_system 7200 10800 3600 2 3);
    [reflexivity | reflexivity | by vm_compute | by vm_compute].
Defined.

(** X10.  Whenever the cached total energy equals the reference energy,
    as it does right after the setup, [get_energy_error()] is exactly
    zero if that energy is a finite double other than zero, and NaN if
    it is zero (an empty store, a single body at rest): the quotient is
    then zero over zero. *)
Theorem energy_error_at_reference (s : SolarSystem) :
  total_energy s = initial_energy s ->
  (finite_nonzero (initial_energy s) -> get_energy_error s = 0) /\
  (is_zero (initial_energy s) -> get_energy_error s = nan).
Proof.
  intros Heq. unfold get_energy_error. rewrite Heq. split; intros H.
  - rewrite DblMore.sub_diag_finite by (by apply DblMore.finite_nonzero_finite).
    by apply DblMore.abs_zero_div.
  - rewrite DblMore.sub_diag_finite by (by apply DblMore.is_zero_finite).
    by apply DblMore.abs_zero_div_zero.
Qed.

Lemma energy_error_at_reference_witness :
  get_energy_error Sample.inner_system = 0 /\
  get_energy_error MoreSamples.lone_sun = nan.
Proof.
  split.
  - apply (energy_error_at_reference Sample.inner_system); [reflexivity |].
    by vm_compute.
  - apply (energy_error_at_reference MoreSamples.lone_sun); [reflexivity |].
    by vm_compute.
Defined.

(** X11.  The per-body helpers answer zero instead of failing: for an
    index that is negative or not below the body count,
    [get_orbital_period], [get_distance_from_sun] and [get_speed] return
    [0]; [get_orbital_period] returns [0] for index 0 as well.  For any
    other index the period is [2 * pi * sqrt(r^3 / (GRAV * M))] with [r]
    the value of [get_distance_from_sun] and [M] the mass of body 0. *)
Theorem per_body_queries_guarded (s : SolarSystem) (body_index : Z) :
  ((body_index < 0 \/ get_body_count s <= body_index)%Z ->
   get_orbital_period body_index s = 0 /\
   get_distance_from_sun body_index s = 0 /\
   get_speed body_index s = 0) /\
  get_orbital_period 0 s = 0 /\
  ((0 < body_index < get_body_count s)%Z ->
   forall b0, bodies s !! 0%nat = Some b0 ->
   get_orbital_period body_index s =
   2.0 * M_PI *
   sqrt (get_distance_from_sun body_index s *
         get_distance_from_sun body_index s *
         get_distance_from_sun body_index s / (GRAV * mass b0))).
Proof.
  unfold get_body_count, get_orbital_period, get_distance_from_sun, get_speed.
  split; [| split].
  - intros H.
    destruct (Z.leb_spec body_index 0),
             (Z.ltb_spec body_index 0),
             (Z.leb_spec (Z.of_nat (length (bodies s))) body_index);
      cbn [orb]; try done; lia.
  - done.
  - intros H b0 Hb0.
    destruct (Z.leb_spec body_index 0); [lia |].
    destruct (Z.ltb_spec body_index 0); [lia |].
    destruct (Z.leb_spec (Z.of_nat (length (bodies s))) body_index); [lia |].
    cbn [orb]. rewrite Hb0.
    destruct (lookup_lt_is_Some_2 (bodies s) (Z.to_nat body_index)) as [b ->];
      [lia | done].
Qed.

Lemma per_body_queries_guarded_witness :
  get_speed 17 Sample.inner_system = 0 /\
  get_orbital_period 3 Sample.inner_system =
  2.0 * M_PI *
  sqrt (get_distance_from_sun 3 Sample.inner_system *
        get_distance_from_sun 3 Sample.inner_system *
        get_distance_from_sun 3 Sample.inner_system /
        (GRAV * mass (Sample.slot Sample.inner_system 0))).
Proof.
  destruct (per_body_queries_guarded Sample.inner_system 17) as (H17 & _ & _).
  destruct (per_body_queries_guarded Sample.inner_system 3) as (_ & _ & H3).
  split.
  - apply H17. right. by vm_compute.
  - apply H3; [by vm_compute | vm_compute; reflexivity].
Defined.

(** X12.  A negative [trajectory_max_points] switches the bound off: the
    conversion to [size_t] turns it into a number near [2^64], the test
    in [add_trajectory_point] never succeeds, and every push is kept.
    After any sequence of pushes the three vectors hold everything they
    held plus every pushed coordinate, in order. *)
Theorem negative_capacity_never_evicts (b : body) (ps : list vec3) :
  (INT_MIN <= trajectory_max_points b < 0)%Z ->
  (Z.of_nat (length (trajectory_x b) + length ps) < 2 ^ 63)%Z ->
  trajectory_x (foldl push b ps) = trajectory_x b ++ ((fun p => p.1.1) <$> ps) /\
  trajectory_y (foldl push b ps) = trajectory_y b ++ ((fun p => p.1.2) <$> ps) /\
  trajectory_z (foldl push b ps) = trajectory_z b ++ ((fun p => p.2) <$> ps) /\
  length (trajectory_x (foldl push b ps)) =
    (length (trajectory_x b) + length ps)%nat.
Proof.
  intros Hcap Hlen.
  destruct (push_all_negative_capacity ps b Hcap Hlen) as (Hx & Hy & Hz).
  split; [exact Hx |]. split; [exact Hy |]. split; [exact Hz |].
  by rewrite Hx, length_app, length_fmap.
Qed.

Lemma negative_capacity_never_evicts_witness :
  trajectory_max_points MoreSamples.unbounded_mercury = (-1)%Z /\
  length (trajectory_x
            (foldl push MoreSamples.unbounded_mercury Sample.twelve_positions)) =
  12%nat.
Proof.
  split; [reflexivity |].
  apply (negative_capacity_never_evicts MoreSamples.unbounded_mercury
           Sample.twelve_positions).
  - by vm_compute.
  - by vm_compute.
Defined.

(** X13.  For a store whose bodies all lie and move in the plane
    [z = 0], with finite masses, coordinates and velocities,
    [calculate_angular_momentum()] returns exactly [+0] for [Lx] and
    [Ly]; [Lz] is the sum of [mass * (x * vy - y * vx)] over the bodies
    and the magnitude is computed from [Lz] alone. *)
Theorem planar_angular_momentum (s : SolarSystem) :
  Forall planar (bodies s) ->
  let Lz := foldl (fun Lz b => Lz + mass b * (x b * vy b - y b * vx b))
                  0 (bodies s) in
  calculate_angular_momentum s = [0; 0; Lz; sqrt (0 + Lz * Lz)].
Proof.
  intros H Lz. unfold calculate_angular_momentum.
  destruct (angular_momentum_planar (bodies s)
              (Dbl.zero, Dbl.zero, Dbl.zero) H) as [Hx Hy]; [done | done |].
  rewrite Hx, Hy, angular_momentum_z. reflexivity.
Qed.

Lemma planar_angular_momentum_witness :
  Forall planar (bodies Sample.inner_system) /\
  take 2 (calculate_angular_momentum Sample.inner_system) = [0; 0].
Proof.
  assert (H : Forall planar (bodies Sample.inner_system)).
  { let l := eval vm_compute in (bodies Sample.inner_system) in
    change (bodies Sample.inner_system) with l.
    repeat (apply List.Forall_cons; [by vm_compute |]).
    apply List.Forall_nil. }
  split; [exact H |].
  by rewrite (planar_angular_momentum Sample.inner_system H).
Defined.

(** X14.  Evaluating the forces twice in a row gives what evaluating
    them once gives, and a store is Ready exactly when a force
    evaluation would change none of its bodies. *)
Theorem force_evaluation_idempotent (s : SolarSystem) :
  compute_all_accelerations (compute_all_accelerations (bodies s)) =
    compute_all_accelerations (bodies s) /\
  (Ready s <-> compute_all_accelerations (bodies s) = bodies s).
Proof.
  split; [| apply Ready_fixpoint].
  rewrite !compute_all_accelerations_spec.
  apply with_net_acceleration_idempotent.
Qed.

End Extras.
